(** * The text pipeline of [main.py]: validation, translation with fallback,
      speech synthesis.

    The script is a Streamlit page.  Its logic is embedded shallowly:
    Python [str] values that are inspected character by character (the text
    box) are lists of code points, language codes and messages are Rocq
    strings, and the three external libraries ([langdetect], [deep_translator],
    [gTTS]) are parameters of the development.  Effects (calls to those
    libraries, widgets written to the page, exceptions) are threaded through a
    small state-and-exception monad. *)

From Stdlib Require Import List String Ascii Bool Arith NArith ZArith QArith Lia.
From Stdlib Require Import Sorted Permutation.
Import ListNotations.
Close Scope Q_scope.

Set Implicit Arguments.

(** ** Python strings *)

Module PyStr.

(** A Python [str] is a sequence of Unicode code points; [len] counts them
    and returns a Python integer. *)
Definition t := list N.

Definition len (s : t) : Z := Z.of_nat (List.length s).

(** Truth value of a [str]: only the empty string is falsy. *)
Definition truthy (s : t) : bool :=
  match s with [] => false | _ :: _ => true end.

Definition of_string (s : string) : t :=
  List.map N_of_ascii (list_ascii_of_string s).

(** [==] on two strings. *)
Fixpoint eqb (a b : t) : bool :=
  match a, b with
  | [], [] => true
  | x :: a', y :: b' => N.eqb x y && eqb a' b'
  | _, _ => false
  end.

Local Open Scope N_scope.

(** [str.isspace] on one code point (CPython's [_PyUnicode_IsWhitespace]):
    the characters that [str.strip()] and [str.split()] treat as blank. *)
Definition isspace (c : N) : bool :=
  ((0x09 <=? c) && (c <=? 0x0D))
  || ((0x1C <=? c) && (c <=? 0x20))
  || (c =? 0x85) || (c =? 0xA0) || (c =? 0x1680)
  || ((0x2000 <=? c) && (c <=? 0x200A))
  || (c =? 0x2028) || (c =? 0x2029) || (c =? 0x202F)
  || (c =? 0x205F) || (c =? 0x3000).

Local Close Scope N_scope.

(** [str.lstrip()], [str.rstrip()] and [str.strip()] without argument. *)
Fixpoint lstrip (s : t) : t :=
  match s with
  | [] => []
  | c :: rest => if isspace c then lstrip rest else s
  end.

Definition rstrip (s : t) : t := rev (lstrip (rev s)).

Definition strip (s : t) : t := rstrip (lstrip s).

(** [str.split()] without argument: the maximal runs of non-blank
    characters, in order.  [word] holds the run being read, reversed. *)
Fixpoint split_from (word : t) (s : t) : list t :=
  match s with
  | [] => match word with [] => [] | _ :: _ => [rev word] end
  | c :: rest =>
      if isspace c then
        match word with
        | [] => split_from [] rest
        | _ :: _ => rev word :: split_from [] rest
        end
      else split_from (c :: word) rest
  end.

Definition split (s : t) : list t := split_from [] s.

(** The specification's reading of "whitespace-only" and of "number of
    whitespace-separated words", to compare with [strip] and [split]. *)
Definition whitespace_only (s : t) : Prop :=
  forall c, In c s -> isspace c = true.

(** A word starts at every non-blank character that is first in the text or
    follows a blank one. *)
Fixpoint word_starts (after_blank : bool) (s : t) : nat :=
  match s with
  | [] => 0
  | c :: rest =>
      if isspace c then word_starts true rest
      else (if after_blank then 1 else 0) + word_starts false rest
  end.

Definition word_count (s : t) : nat := word_starts true s.

End PyStr.

(** ** Effects: exceptions, the page, the external libraries *)

(** The result of running a piece of Python: a value, or an exception [e]
    (an instance of [Exception], the kind a provider fails with) of which
    only [str(e)] is kept. *)
Inductive outcome (A : Type) : Type :=
| Returns (a : A)
| Raises (msg : string).
Arguments Raises {A} msg.

(** Truth value of an optional string ([None] and the empty string are
    falsy), as tested by [if detected_lang:], [if trans_error:], [if error:]. *)
Definition truthy (o : option string) : bool :=
  match o with
  | Some s => negb (s =? "")%string
  | None => false
  end.

(** What [st.markdown] and [st.metric] are given.  Markup that embeds a value
    keeps the value; a number written through a format specification keeps
    the number and the number of decimals asked for. *)
Inductive markup : Type :=
| Md_text (s : string)
| Md_translation_box (translated_text : option PyStr.t)
| Md_download_link (audio_bytes : list Byte.byte) (filename : string).

Inductive metric_value : Type :=
| Fixed (prefix : string) (value : Q) (decimals : nat) (suffix : string)
| Plain (s : string).

(** Everything observable a run does, in order. *)
Inductive event : Type :=
| Call_tts_langs
| Call_detect (text : PyStr.t)
| Call_GoogleTranslator (source target : string) (text : PyStr.t)
| Call_gTTS (text : option PyStr.t) (lang : string) (slow : bool) (tld : string)
| St_error (msg : string)
| St_info (msg : string)
| St_success (msg : string)
| St_markdown (body : markup)
| St_audio (data : option (list Byte.byte))
| St_metric (label : string) (value : metric_value).

Definition is_provider_call (e : event) : bool :=
  match e with
  | Call_detect _ | Call_GoogleTranslator _ _ _ | Call_gTTS _ _ _ _ => true
  | _ => false
  end.

(** The process state the pipeline can see: [DetectorFactory.seed] (a class
    attribute of [langdetect], [None] until somebody assigns it), the entropy
    an unseeded generator would draw in this run, and the trace so far. *)
Record state : Type := mkState {
  DetectorFactory_seed : option N;
  os_entropy : N;
  log : list event
}.

(** What the generator of a detection starts from: [DetectorFactory.seed]
    when that is set, the entropy it was created with otherwise. *)
Definition generator_seed (s : state) : N :=
  match DetectorFactory_seed s with
  | Some n => n
  | None => os_entropy s
  end.

Definition M (A : Type) : Type := state -> outcome A * state.

Definition ret {A} (a : A) : M A := fun s => (Returns a, s).

Definition bind {A B} (m : M A) (k : A -> M B) : M B :=
  fun s =>
    match m s with
    | (Returns a, s') => k a s'
    | (Raises msg, s') => (Raises msg, s')
    end.

Definition raise {A} (msg : string) : M A := fun s => (Raises msg, s).

(** [try: body / except Exception as e: handler(str(e))]. *)
Definition try_except {A} (body : M A) (handler : string -> M A) : M A :=
  fun s =>
    match body s with
    | (Returns a, s') => (Returns a, s')
    | (Raises msg, s') => handler msg s'
    end.

Definition emit (e : event) : M unit :=
  fun s => (Returns tt,
            mkState (DetectorFactory_seed s) (os_entropy s) (log s ++ [e])).

(** A call to an external function whose result this run is [r]. *)
Definition call {A} (e : event) (r : outcome A) : M A :=
  fun s => (r, mkState (DetectorFactory_seed s) (os_entropy s) (log s ++ [e])).

Declare Scope py_scope.
Delimit Scope py_scope with py.
Notation "x <- m ;; k" := (bind m (fun x => k))
  (at level 61, m at next level, right associativity) : py_scope.
Notation "' pat <- m ;; k" := (bind m (fun x => match x with pat => k end))
  (at level 61, pat pattern, m at next level, right associativity) : py_scope.
Notation "m ;; k" := (bind m (fun _ => k))
  (at level 61, right associativity) : py_scope.
Open Scope py_scope.
Open Scope string_scope.

(** The events a computation adds to the trace from state [s], and its
    result. *)
Definition trace_of {A} (m : M A) (s : state) : list event :=
  skipn (List.length (log s)) (log (snd (m s))).

Definition result_of {A} (m : M A) (s : state) : outcome A := fst (m s).

Definition extend (s : state) (tr : list event) : state :=
  mkState (DetectorFactory_seed s) (os_entropy s) (log s ++ tr).

(** [yields m s r tr]: from [s], [m] ends with [r] after adding exactly [tr]
    to the trace, and leaves the rest of the state alone. *)
Definition yields {A} (m : M A) (s : state) (r : outcome A)
    (tr : list event) : Prop :=
  m s = (r, extend s tr).

(** [stable m]: [m] sees of the state only what a detection would start
    from; two states that agree on it give the same result and the same new
    events. *)
Definition stable {A} (m : M A) : Prop :=
  forall sa sb,
    generator_seed sa = generator_seed sb ->
    exists r tr, yields m sa r tr /\ yields m sb r tr.

(** ** The script *)

(** The [Accent] select box offers the keys of [accent_options]. *)
Inductive accent : Type :=
| US_English | UK_English | Canadian_English | Australian_English
| Indian_English.

Definition accent_options (a : accent) : string :=
  match a with
  | US_English => "com"
  | UK_English => "co.uk"
  | Canadian_English => "ca"
  | Australian_English => "com.au"
  | Indian_English => "co.in"
  end.

(** What the widgets hold when the script runs.  [selected_accent] is the
    value kept for the [Accent] box, whether or not the box is drawn in this
    run; [source_lang] is the code behind the [From Language] box. *)
Record widgets : Type := mkWidgets {
  enable_translation : bool;
  source_lang : string;
  lang_code : string;
  selected_accent : accent;
  slow_speech : bool;
  text_input : PyStr.t;
  convert_button : bool
}.

(** A Python dictionary from codes to display names, and [d.get(k, default)]. *)
Definition dict := list (string * string).

Fixpoint dict_get (d : dict) (k : string) (default : string) : string :=
  match d with
  | [] => default
  | (k', v) :: d' => if k' =? k then v else dict_get d' k default
  end.

Definition fallback_languages : dict :=
  [("en", "English"); ("es", "Spanish"); ("fr", "French"); ("de", "German");
   ("it", "Italian"); ("pt", "Portuguese"); ("ru", "Russian");
   ("ja", "Japanese"); ("ko", "Korean"); ("zh-cn", "Chinese (Simplified)");
   ("hi", "Hindi"); ("ar", "Arabic")].

(** The result triples of [translate_text] and [convert_text_to_speech].
    The two floating-point numbers of the script, [len(audio_data) / 1024]
    and [word_count * 0.5], are an integer divided by a power of two; such a
    value is computed without rounding for any integer below 2^53, and is
    kept here as the rational it is. *)
Definition translation_result : Type :=
  (option PyStr.t * option string * option string)%type.
Definition synthesis_result : Type :=
  (option (list Byte.byte) * option Q * option string)%type.

Section Pipeline.

(** [langdetect]'s detection, as a function of the seed its generator
    starts from and of the text. *)
Variable langdetect : N -> PyStr.t -> outcome (option string).
(** [GoogleTranslator(source, target).translate(text)]: what it returns is
    forwarded as it is, a text or [None]. *)
Variable GoogleTranslator :
  string -> string -> PyStr.t -> outcome (option PyStr.t).
(** [gTTS(text, lang, slow, tld)] written to a buffer and read back. *)
Variable gTTS :
  option PyStr.t -> string -> bool -> string -> outcome (list Byte.byte).
(** [gtts.lang.tts_langs()]. *)
Variable tts_langs : outcome dict.

(** [DetectorFactory.seed = 0], executed when the script starts. *)
Definition seed_detector : M unit :=
  fun s => (Returns tt, mkState (Some 0%N) (os_entropy s) (log s)).

(** [langdetect.detect]: a detection starts from [generator_seed]. *)
Definition detect (text : PyStr.t) : M (option string) :=
  fun s => call (Call_detect text) (langdetect (generator_seed s) text) s.

Definition get_supported_languages : M dict :=
  try_except (call Call_tts_langs tts_langs)
             (fun _ => ret fallback_languages).

Definition detect_language (text : PyStr.t) : M (option string) :=
  try_except (lang <- detect text ;; ret lang) (fun _ => ret None).

(** Lines 138-144 of [translate_text]: the source language after the
    [if source_lang == 'auto'] block. *)
Definition resolve_source (text : PyStr.t) (source_lang : string) : M string :=
  if source_lang =? "auto" then
    detected_lang <- detect_language text ;;
    match detected_lang with
    | Some l => if truthy detected_lang then ret l else ret "en"
    | None => ret "en"
    end
  else ret source_lang.

(** The "Handle Chinese variants" rewriting of the target code. *)
Definition provider_target (target_lang : string) : string :=
  if target_lang =? "zh-cn" then "zh-CN"
  else if target_lang =? "zh-tw" then "zh-TW"
  else target_lang.

Definition translate_text (text : PyStr.t) (source_lang target_lang : string)
  : M translation_result :=
  try_except
    (source_lang <- resolve_source text source_lang ;;
     if source_lang =? target_lang then
       ret (Some text, Some source_lang, None)
     else
       let target_lang := provider_target target_lang in
       translated <- call (Call_GoogleTranslator source_lang target_lang text)
                          (GoogleTranslator source_lang target_lang text) ;;
       ret (translated, Some source_lang, None))
    (fun e => ret (None, None, Some e)).

Definition convert_text_to_speech
    (text : option PyStr.t) (lang : string) (slow : bool) (tld : string)
  : M synthesis_result :=
  try_except
    (audio_data <- call (Call_gTTS text lang slow tld) (gTTS text lang slow tld) ;;
     let file_size := (Z.of_nat (List.length audio_data) # 1024)%Q in
     ret (Some audio_data, Some file_size, None))
    (fun e => ret (None, None, Some e)).

(** The sidebar's choice of [tld]. *)
Definition sidebar_tld (w : widgets) : string :=
  if lang_code w =? "en" then accent_options (selected_accent w) else "com".

(** Step 1 of the handler: the text to speak. *)
Definition translation_step (w : widgets) : M (option PyStr.t) :=
  if enable_translation w then
    '(translated_text, detected_lang, trans_error) <-
       translate_text (text_input w) (source_lang w) (lang_code w) ;;
    match trans_error with
    | Some e =>
        if truthy trans_error then
          emit (St_error ("Translation error: " ++ e)) ;;
          emit (St_info "Converting original text to speech instead...") ;;
          ret (Some (text_input w))
        else
          emit (St_success "Translation successful!") ;;
          emit (St_markdown (Md_text "**Translated Text:**")) ;;
          emit (St_markdown (Md_translation_box translated_text)) ;;
          ret translated_text
    | None =>
        emit (St_success "Translation successful!") ;;
        emit (St_markdown (Md_text "**Translated Text:**")) ;;
        emit (St_markdown (Md_translation_box translated_text)) ;;
        ret translated_text
    end
  else ret (Some (text_input w)).

(** The display after a synthesis whose [error] is falsy. *)
Definition show_audio (languages : dict) (w : widgets)
    (translated_text : option PyStr.t)
    (audio_data : option (list Byte.byte)) (file_size : option Q) : M unit :=
  emit (St_success "Conversion successful!") ;;
  emit (St_audio audio_data) ;;
  match file_size with
  | None => raise "unsupported format string passed to NoneType.__format__"
  | Some kb =>
      emit (St_metric "File Size" (Fixed "" kb 2 " KB")) ;;
      emit (St_metric "Output Language"
              (Plain (dict_get languages (lang_code w) (lang_code w)))) ;;
      match translated_text with
      | None => raise "'NoneType' object has no attribute 'split'"
      | Some txt =>
          let word_count := Z.of_nat (List.length (PyStr.split txt)) in
          emit (St_metric "Approx Duration"
                  (Fixed "~" (inject_Z word_count * (1 # 2))%Q
                         1 " sec")) ;;
          match audio_data with
          | None => raise "a bytes-like object is required, not 'NoneType'"
          | Some bytes =>
              emit (St_markdown (Md_download_link bytes "audio.mp3"))
          end
      end
  end.

(** Step 2 of the handler. *)
Definition synthesis_step (languages : dict) (w : widgets) (tld : string)
    (translated_text : option PyStr.t) : M unit :=
  '(audio_data, file_size, error) <-
     convert_text_to_speech translated_text (lang_code w) (slow_speech w) tld ;;
  match error with
  | Some e =>
      if truthy error then
        emit (St_error ("Error: " ++ e)) ;;
        emit (St_info "Tip: Make sure you have an internet connection. gTTS requires internet to work.")
      else show_audio languages w translated_text audio_data file_size
  | None => show_audio languages w translated_text audio_data file_size
  end.

(** The [if convert_button:] block. *)
Definition on_convert (languages : dict) (w : widgets) (tld : string) : M unit :=
  if convert_button w then
    let char_count := PyStr.len (text_input w) in
    if negb (PyStr.truthy (text_input w))
       || negb (PyStr.truthy (PyStr.strip (text_input w))) then
      emit (St_error "Please enter some text to convert!")
    else if (5000 <? char_count)%Z then
      emit (St_error "Text is too long. Please reduce to 5000 characters or less.")
    else
      translated_text <- translation_step w ;;
      synthesis_step languages w tld translated_text
  else ret tt.

(** One run of the script: the seed, the language table and the [tld] of the
    sidebar, the handler.  What the page draws outside the handler (titles,
    the character counter, the footer) is left out, and the values of the
    select boxes are taken from the form as they are: the look-ups
    [source_lang_options[selected_source]] and
    [language_options[selected_lang]] are not part of it. *)
Definition script (w : widgets) : M unit :=
  seed_detector ;;
  languages <- get_supported_languages ;;
  on_convert languages w (sidebar_tld w).

End Pipeline.

(** ** The tables of the sidebar *)

(** The supported translation languages, in the order of the source. *)
Definition TRANSLATION_LANGUAGES : dict :=
  [("auto", "Auto-detect"); ("en", "English"); ("es", "Spanish");
   ("fr", "French"); ("de", "German"); ("it", "Italian");
   ("pt", "Portuguese"); ("ru", "Russian"); ("ja", "Japanese");
   ("ko", "Korean"); ("zh-cn", "Chinese (Simplified)");
   ("zh-tw", "Chinese (Traditional)"); ("ar", "Arabic"); ("hi", "Hindi");
   ("nl", "Dutch"); ("pl", "Polish"); ("tr", "Turkish");
   ("vi", "Vietnamese"); ("th", "Thai"); ("id", "Indonesian");
   ("sv", "Swedish"); ("no", "Norwegian"); ("da", "Danish");
   ("fi", "Finnish"); ("el", "Greek"); ("he", "Hebrew"); ("bn", "Bengali");
   ("ta", "Tamil"); ("te", "Telugu"); ("ur", "Urdu"); ("fa", "Persian");
   ("ro", "Romanian"); ("cs", "Czech"); ("hu", "Hungarian");
   ("uk", "Ukrainian")].

(** [d[k]]: [None] stands for the [KeyError]. *)
Fixpoint dict_lookup (d : dict) (k : string) : option string :=
  match d with
  | [] => None
  | (k', v) :: d' => if k' =? k then Some v else dict_lookup d' k
  end.

(** [d[k] = v]: a key already there keeps its place and takes the new
    value, a new key goes last. *)
Fixpoint dict_set (d : dict) (k v : string) : dict :=
  match d with
  | [] => [(k, v)]
  | (k', v') :: d' =>
      if k' =? k then (k', v) :: d' else (k', v') :: dict_set d' k v
  end.

(** A dictionary comprehension [{k: v for ...}] over the pairs [items]. *)
Definition dict_of_pairs (items : list (string * string)) : dict :=
  fold_left (fun d kv => dict_set d (fst kv) (snd kv)) items [].

Definition dict_keys (d : dict) : list string := List.map fst d.

(** [{name: code for code, name in table.items()}]. *)
Definition names_to_codes (table : dict) : dict :=
  dict_of_pairs (List.map (fun item => (snd item, fst item)) table).

Definition source_lang_options : dict := names_to_codes TRANSLATION_LANGUAGES.

(** [sorted(items, key=lambda x: x[1])]: a stable sort on the names, which
    Python compares code point by code point.  Stable sorting has one
    result; it is computed here by insertion from the right. *)
Fixpoint insert_by_name (x : string * string) (l : list (string * string))
  : list (string * string) :=
  match l with
  | [] => [x]
  | y :: l' =>
      if (snd x <=? snd y)%string then x :: l else y :: insert_by_name x l'
  end.

Definition sorted_by_name (items : list (string * string))
  : list (string * string) :=
  fold_right insert_by_name [] items.

(** The label [f"{name} ({code})"] of one language and the dictionary
    [language_options] from labels to codes. *)
Definition option_label (item : string * string) : string :=
  snd item ++ " (" ++ fst item ++ ")".

Definition language_options (languages : dict) : dict :=
  dict_of_pairs
    (List.map (fun item => (option_label item, fst item))
              (sorted_by_name languages)).

(** A select box with [index=0] starts on its first option. *)
Definition first_option (d : dict) : option string :=
  match d with
  | [] => None
  | (k, _) :: _ => Some k
  end.

(** Whether a character occurs in a string, and the order the options are
    listed in. *)
Fixpoint has_char (c : ascii) (s : string) : bool :=
  match s with
  | EmptyString => false
  | String a s' => Ascii.eqb a c || has_char c s'
  end.

Definition name_le (x y : string * string) : Prop :=
  (snd x <=? snd y)%string = true.

(** Distinctness of a list of strings, by computation. *)
Fixpoint distinct (l : list string) : bool :=
  match l with
  | [] => true
  | x :: l' => negb (existsb (String.eqb x) l') && distinct l'
  end.

(** ** The banner and the download link *)

(** [s.split(sep)[0]] for a separator of one character: what comes before
    its first occurrence, the whole of [s] when there is none. *)
Fixpoint before_first (sep : N) (s : PyStr.t) : PyStr.t :=
  match s with
  | [] => []
  | c :: rest => if (c =? sep)%N then [] else c :: before_first sep rest
  end.

(** [selected_lang.split('(')[0].strip()]: the output language named in the
    "Translation enabled" banner. *)
Definition banner_target (selected_lang : PyStr.t) : PyStr.t :=
  PyStr.strip (before_first 40 selected_lang).

(** [base64.b64encode(data).decode()]: the standard alphabet, three bytes
    to four characters, [=] padding. *)
Definition b64_alphabet : string :=
  "ABCDEFGHIJKLMNOPQRSTUVWXYZabcdefghijklmnopqrstuvwxyz0123456789+/".

Definition b64_char (n : N) : ascii :=
  match String.get (N.to_nat n) b64_alphabet with
  | Some c => c
  | None => "="%char
  end.

Fixpoint b64encode (data : list Byte.byte) : string :=
  match data with
  | [] => EmptyString
  | [a] =>
      let x := Byte.to_N a in
      String (b64_char (x / 4))
        (String (b64_char (x mod 4 * 16)) "==")
  | [a; b] =>
      let x := Byte.to_N a in
      let y := Byte.to_N b in
      String (b64_char (x / 4))
        (String (b64_char (x mod 4 * 16 + y / 16))
           (String (b64_char (y mod 16 * 4)) "="))
  | a :: b :: c :: rest =>
      let x := Byte.to_N a in
      let y := Byte.to_N b in
      let z := Byte.to_N c in
      String (b64_char (x / 4))
        (String (b64_char (x mod 4 * 16 + y / 16))
           (String (b64_char (y mod 16 * 4 + z / 64))
              (String (b64_char (z mod 64)) (b64encode rest))))
  end%N.

Definition dquote : string := String (ascii_of_N 34) EmptyString.

(** The anchor [get_audio_download_link] returns; it is the HTML behind
    [Md_download_link]. *)
Definition get_audio_download_link (audio_bytes : list Byte.byte)
    (filename : string) : string :=
  let b64 := b64encode audio_bytes in
  "<a href=" ++ dquote ++ "data:audio/mp3;base64," ++ b64 ++ dquote
  ++ " download=" ++ dquote ++ filename ++ dquote
  ++ ">Download Audio File</a>".

(** [base64.b64decode] on a payload, to state that nothing is lost:
    [None] stands for a payload it refuses. *)
Fixpoint b64_index_from (alphabet : string) (c : ascii) (i : N) : option N :=
  match alphabet with
  | EmptyString => None
  | String a rest =>
      if Ascii.eqb a c then Some i else b64_index_from rest c (i + 1)
  end.

Definition b64_index (c : ascii) : option N := b64_index_from b64_alphabet c 0.

Definition bytes_of (l : list N) : option (list Byte.byte) :=
  fold_right (fun n acc =>
                match Byte.of_N n, acc with
                | Some b, Some bs => Some (b :: bs)
                | _, _ => None
                end) (Some []) l.

Fixpoint b64decode (s : string) : option (list Byte.byte) :=
  match s with
  | EmptyString => Some []
  | String c1 (String c2 (String c3 (String c4 rest))) =>
      match b64_index c1, b64_index c2 with
      | Some s1, Some s2 =>
          if Ascii.eqb c3 "=" then
            if Ascii.eqb c4 "=" && (rest =? EmptyString)%string
            then bytes_of [s1 * 4 + s2 / 16]
            else None
          else
            match b64_index c3 with
            | Some s3 =>
                if Ascii.eqb c4 "=" then
                  if (rest =? EmptyString)%string
                  then bytes_of [s1 * 4 + s2 / 16; s2 mod 16 * 16 + s3 / 4]
                  else None
                else
                  match b64_index c4, b64decode rest with
                  | Some s4, Some tail =>
                      option_map (fun group => (group ++ tail)%list)
                        (bytes_of [s1 * 4 + s2 / 16;
                                   s2 mod 16 * 16 + s3 / 4;
                                   s3 mod 4 * 64 + s4])
                  | _, _ => None
                  end
            | None => None
            end
      | _, _ => None
      end
  | _ => None
  end%N.

(** The characters a payload is made of. *)
Definition is_b64_char (c : ascii) : bool :=
  match b64_index c with
  | Some _ => true
  | None => Ascii.eqb c "="
  end.

Fixpoint string_forall (p : ascii -> bool) (s : string) : bool :=
  match s with
  | EmptyString => true
  | String c rest => p c && string_forall p rest
  end.

(** ** Sample providers and runs *)

Module Sample.

Definition bonjour : PyStr.t := PyStr.of_string "Bonjour".
Definition hello_world : PyStr.t := PyStr.of_string "Hello world".

(** A detector that knows one French word, gives up on anything else, and
    is unstable when its generator is left unseeded. *)
Definition langdetect (start : N) (text : PyStr.t)
  : outcome (option string) :=
  if PyStr.eqb text bonjour then
    if N.even start then Returns (Some "fr") else Returns (Some "it")
  else Raises "No features in text.".

Definition translator (source target : string) (text : PyStr.t)
  : outcome (option PyStr.t) :=
  if (source =? "fr") && (target =? "en") then
    Returns (Some (PyStr.of_string "Hello"))
  else Raises "No support for the provided language.".

(** A provider that fails with a message, and one that fails with an
    exception built without arguments, whose [str] is empty. *)
Definition offline_translator (source target : string) (text : PyStr.t)
  : outcome (option PyStr.t) :=
  Raises "Request exception can happen due to an api connection error.".

Definition silent_translator (source target : string) (text : PyStr.t)
  : outcome (option PyStr.t) :=
  Raises "".

(** [gTTS] asserts that it is given a text; the audio is three bytes per
    character here. *)
Definition synthesizer (text : option PyStr.t) (lang : string) (slow : bool)
    (tld : string) : outcome (list Byte.byte) :=
  match text with
  | Some t => Returns (List.flat_map (fun _ => [Byte.xff; Byte.xf3; Byte.x44]) t)
  | None => Raises "No text to speak"
  end.

Definition long_text : PyStr.t := List.repeat 97%N (N.to_nat 5001).
Definition blank_text : PyStr.t := List.repeat 32%N (N.to_nat 5001).

(** A fresh process, and one in which the seed has been pinned. *)
Definition start : state := mkState None 7 [].
Definition seeded : state := mkState (Some 0%N) 7 [].

Definition form (enabled : bool) (source target : string) (text : PyStr.t)
  : widgets :=
  mkWidgets enabled source target UK_English false text true.

End Sample.

(** Further sample providers and texts. *)
Module MoreSamples.

(** A synthesizer without network, and one that fails with an exception
    built without arguments. *)
Definition offline_synthesizer (text : option PyStr.t) (lang : string)
    (slow : bool) (tld : string) : outcome (list Byte.byte) :=
  Raises "Failed to connect. Probable cause: Unknown".

Definition silent_synthesizer (text : option PyStr.t) (lang : string)
    (slow : bool) (tld : string) : outcome (list Byte.byte) :=
  Raises "".

(** A provider whose [translate] returns [None]. *)
Definition empty_translator (source target : string) (text : PyStr.t)
  : outcome (option PyStr.t) :=
  Returns None.

(** A text of exactly 5000 characters. *)
Definition full_text : PyStr.t := List.repeat 97%N (N.to_nat 5000).

End MoreSamples.

(** ** Reading traces *)

Definition is_synthesis (e : event) : bool :=
  match e with Call_gTTS _ _ _ _ => true | _ => false end.

Definition no_synthesis (tr : list event) : Prop :=
  forallb (fun e => negb (is_synthesis e)) tr = true.

(** What step 1 shows and hands over, from the triple of [translate_text]. *)
Definition translation_display (w : widgets) (res : translation_result)
  : option PyStr.t * list event :=
  let '(translated_text, _, trans_error) := res in
  match trans_error with
  | Some e =>
      if truthy trans_error then
        (Some (text_input w),
         [St_error ("Translation error: " ++ e);
          St_info "Converting original text to speech instead..."])
      else
        (translated_text,
         [St_success "Translation successful!";
          St_markdown (Md_text "**Translated Text:**");
          St_markdown (Md_translation_box translated_text)])
  | None =>
      (translated_text,
       [St_success "Translation successful!";
        St_markdown (Md_text "**Translated Text:**");
        St_markdown (Md_translation_box translated_text)])
  end.

(** Kinds of events, to count and to exclude. *)
Definition is_detection (e : event) : bool :=
  match e with Call_detect _ => true | _ => false end.

Definition is_translation (e : event) : bool :=
  match e with Call_GoogleTranslator _ _ _ => true | _ => false end.

(** The player, the three metrics and the download link. *)
Definition is_audio_output (e : event) : bool :=
  match e with
  | St_audio _ | St_metric _ _ | St_markdown (Md_download_link _ _) => true
  | _ => false
  end.

Definition count (p : event -> bool) (tr : list event) : nat :=
  List.length (filter p tr).

Definition no_calls (tr : list event) : Prop :=
  forallb (fun e => negb (is_provider_call e)) tr = true.

Definition no_audio_output (tr : list event) : Prop :=
  forallb (fun e => negb (is_audio_output e)) tr = true.

(** A text the handler lets through: not empty, not made of whitespace
    only, and of at most 5000 characters. *)
Definition valid_text (t : PyStr.t) : Prop :=
  ~ PyStr.whitespace_only t /\ (PyStr.len t <= 5000)%Z.

(** ** Facts about [strip] and [split] *)

Module PyStrFacts.
Import PyStr.
Local Open Scope list_scope.

Lemma lstrip_nil_iff s : lstrip s = [] <-> whitespace_only s.
Proof.
  unfold whitespace_only; induction s as [|c s IH]; simpl.
  - split; [intros _ c [] | reflexivity].
  - destruct (isspace c) eqn:Hc.
    + rewrite IH; split.
      * intros H x [<-|Hx]; auto.
      * intros H x Hx; apply H; now right.
    + split; [discriminate|].
      intros H. specialize (H c (or_introl eq_refl)). congruence.
Qed.

Lemma lstrip_blank s : whitespace_only s -> lstrip s = [].
Proof. apply lstrip_nil_iff. Qed.

Lemma lstrip_suffix s : exists pre, s = pre ++ lstrip s /\ whitespace_only pre.
Proof.
  induction s as [|c s [pre [E W]]]; simpl.
  - exists []; split; [reflexivity | intros ? []].
  - destruct (isspace c) eqn:Hc.
    + exists (c :: pre); split; [simpl; congruence|].
      intros x [<-|Hx]; auto.
    + exists []; split; [reflexivity | intros ? []].
Qed.

Lemma whitespace_only_app a b :
  whitespace_only (a ++ b) <-> whitespace_only a /\ whitespace_only b.
Proof.
  unfold whitespace_only; split.
  - intros H; split; intros c Hc; apply H, in_or_app; auto.
  - intros [Ha Hb] c Hc; apply in_app_or in Hc; destruct Hc; auto.
Qed.

Lemma whitespace_only_rev s : whitespace_only (rev s) <-> whitespace_only s.
Proof.
  unfold whitespace_only; split; intros H c Hc; apply H.
  - now apply in_rev in Hc.
  - now apply in_rev.
Qed.

(** [text.strip()] is empty exactly for the texts made of blanks only
    (the empty text included). *)
Lemma strip_nil_iff s : strip s = [] <-> whitespace_only s.
Proof.
  unfold strip, rstrip; split.
  - intros H.
    assert (Hr : lstrip (rev (lstrip s)) = []).
    { rewrite <- (rev_involutive (lstrip _)), H; reflexivity. }
    apply lstrip_nil_iff in Hr. rewrite whitespace_only_rev in Hr.
    destruct (lstrip_suffix s) as [pre [E W]].
    rewrite E; apply whitespace_only_app; split; assumption.
  - intros H. rewrite (lstrip_blank H); reflexivity.
Qed.

Lemma whitespace_only_forallb s :
  forallb isspace s = true -> whitespace_only s.
Proof. intros H c Hc. rewrite forallb_forall in H. now apply H. Qed.

Lemma truthy_false_iff s : truthy s = false <-> s = [].
Proof. destruct s; simpl; split; congruence. Qed.

(** [len(text.split())] counts the word starts. *)
Lemma length_split_from word s :
  List.length (split_from word s) =
  match word with
  | [] => word_starts true s
  | _ :: _ => 1 + word_starts false s
  end.
Proof.
  revert word; induction s as [|c s IH]; intros word; simpl.
  - destruct word; reflexivity.
  - destruct (isspace c).
    + destruct word; simpl; rewrite IH; reflexivity.
    + rewrite IH; destruct word; reflexivity.
Qed.

Lemma length_split s : List.length (split s) = word_count s.
Proof. exact (length_split_from [] s). Qed.

(** The words returned by [split] are non-empty and free of blanks, and
    together they are the text with its blanks removed. *)
Lemma split_from_words word s w :
  (forall c, In c word -> isspace c = false) ->
  In w (split_from word s) ->
  w <> [] /\ forall c, In c w -> isspace c = false.
Proof.
  revert word; induction s as [|c s IH]; intros word Hw; simpl.
  - destruct word as [|x word]; [intros []|].
    intros [<-|[]]; split.
    + intros E. apply (f_equal (@rev N)) in E.
      rewrite rev_involutive in E; discriminate.
    + intros y Hy; apply Hw; now apply in_rev.
  - destruct (isspace c) eqn:Hc.
    + destruct word as [|x word].
      * apply IH; intros ? [].
      * intros [<-|Hin].
        -- split.
           ++ intros E. apply (f_equal (@rev N)) in E.
              rewrite rev_involutive in E; discriminate.
           ++ intros y Hy; apply Hw; now apply in_rev.
        -- revert Hin; apply IH; intros ? [].
    + apply IH. intros y [<-|Hy]; auto.
Qed.

Lemma concat_split_from word s :
  List.concat (split_from word s) =
  rev word ++ filter (fun c => negb (isspace c)) s.
Proof.
  revert word; induction s as [|c s IH]; intros word; simpl.
  - destruct word; simpl; now rewrite ?app_nil_r.
  - destruct (isspace c) eqn:Hc; simpl.
    + destruct word; simpl; rewrite IH; reflexivity.
    + rewrite IH; simpl. now rewrite <- app_assoc.
Qed.

End PyStrFacts.

(** ** Running computations *)

Section Runs.

Context {A B : Type}.
Local Open Scope list_scope.

Lemma extend_nil s : extend s [] = s.
Proof. destruct s; unfold extend; simpl; now rewrite app_nil_r. Qed.

Lemma extend_extend s t1 t2 : extend (extend s t1) t2 = extend s (t1 ++ t2).
Proof. unfold extend; simpl; now rewrite app_assoc. Qed.

Lemma yields_ret (a : A) s : yields (ret a) s (Returns a) [].
Proof. unfold yields, ret; now rewrite extend_nil. Qed.

Lemma yields_raise msg s : yields (@raise A msg) s (Raises msg) [].
Proof. unfold yields, raise; now rewrite extend_nil. Qed.

Lemma yields_emit e s : yields (emit e) s (Returns tt) [e].
Proof. reflexivity. Qed.

Lemma yields_call e (r : outcome A) s : yields (call e r) s r [e].
Proof. reflexivity. Qed.

Lemma yields_bind (m : M A) (k : A -> M B) s a t1 r t2 :
  yields m s (Returns a) t1 ->
  yields (k a) (extend s t1) r t2 ->
  yields (bind m k) s r (t1 ++ t2).
Proof.
  unfold yields, bind; intros -> ->; now rewrite extend_extend.
Qed.

Lemma yields_emit_then e (k : M B) s r t :
  yields k (extend s [e]) r t ->
  yields (emit e ;; k) s r (e :: t).
Proof.
  unfold yields, bind, emit; intros Y.
  change (mkState (DetectorFactory_seed s) (os_entropy s) (log s ++ [e]))
    with (extend s [e]).
  rewrite Y, extend_extend; reflexivity.
Qed.

Lemma yields_bind_raises (m : M A) (k : A -> M B) s msg t1 :
  yields m s (Raises msg) t1 ->
  yields (bind m k) s (Raises msg) t1.
Proof. unfold yields, bind; now intros ->. Qed.

Lemma yields_try_returns (body : M A) handler s a t :
  yields body s (Returns a) t ->
  yields (try_except body handler) s (Returns a) t.
Proof. unfold yields, try_except; now intros ->. Qed.

Lemma yields_try_raises (body : M A) handler s msg t1 r t2 :
  yields body s (Raises msg) t1 ->
  yields (handler msg) (extend s t1) r t2 ->
  yields (try_except body handler) s r (t1 ++ t2).
Proof.
  unfold yields, try_except; intros -> ->; now rewrite extend_extend.
Qed.

Lemma yields_observed (m : M A) s r tr :
  yields m s r tr -> result_of m s = r /\ trace_of m s = tr.
Proof.
  unfold yields, result_of, trace_of; intros ->; simpl; split; auto.
  rewrite skipn_app, skipn_all, Nat.sub_diag; reflexivity.
Qed.

Lemma yields_deterministic (m : M A) s r1 t1 r2 t2 :
  yields m s r1 t1 -> yields m s r2 t2 -> r1 = r2 /\ t1 = t2.
Proof.
  intros H1 H2.
  apply yields_observed in H1, H2. destruct H1, H2; split; congruence.
Qed.

Lemma stable_ret (a : A) : stable (ret a).
Proof. intros sa sb _; exists (Returns a), []; split; apply yields_ret. Qed.

Lemma stable_raise msg : stable (@raise A msg).
Proof. intros sa sb _; exists (Raises msg), []; split; apply yields_raise. Qed.

Lemma stable_call e (r : outcome A) : stable (call e r).
Proof. intros sa sb _; exists r, [e]; split; apply yields_call. Qed.

Lemma stable_bind (m : M A) (k : A -> M B) :
  stable m -> (forall a, stable (k a)) -> stable (bind m k).
Proof.
  intros Hm Hk sa sb E.
  destruct (Hm sa sb E) as [[a|msg] [t1 [Ya Yb]]].
  - destruct (Hk a (extend sa t1) (extend sb t1) E) as [r [t2 [Ya' Yb']]].
    exists r, (t1 ++ t2); split; eapply yields_bind; eassumption.
  - exists (Raises msg), t1; split; now apply yields_bind_raises.
Qed.

Lemma stable_try_except (body : M A) handler :
  stable body -> (forall msg, stable (handler msg)) ->
  stable (try_except body handler).
Proof.
  intros Hm Hk sa sb E.
  destruct (Hm sa sb E) as [[a|msg] [t1 [Ya Yb]]].
  - exists (Returns a), t1; split; now apply yields_try_returns.
  - destruct (Hk msg (extend sa t1) (extend sb t1) E) as [r [t2 [Ya' Yb']]].
    exists r, (t1 ++ t2); split; eapply yields_try_raises; eassumption.
Qed.

End Runs.

Lemma stable_emit e : stable (emit e).
Proof. intros sa sb _; exists (Returns tt), [e]; split; apply yields_emit. Qed.

Create HintDb stable.
#[local] Hint Resolve stable_ret stable_raise stable_call stable_emit : stable.

(** Splits a computation along its [bind]s, handlers and case analyses. *)
Ltac stability :=
  repeat first
    [ apply stable_ret | apply stable_raise | apply stable_call
    | apply stable_emit
    | apply stable_bind; [|intros ?]
    | apply stable_try_except; [|intros ?]
    | match goal with
      | |- stable (match ?x with _ => _ end) => destruct x
      | |- stable (let '(_, _) := ?x in _) => destruct x
      end
    | solve [auto with stable] ].

(** Walks through a sequence of [emit]s. *)
Ltac emits :=
  repeat (cbn iota beta;
          lazymatch goal with
          | |- yields (bind (emit _) _) _ _ _ => apply yields_emit_then
          end);
  cbn iota beta.

(** The resolver's trace holds no call of the translation provider. *)
Lemma detection_only (text : PyStr.t) (tr : list event) :
  tr = [] \/ tr = [Call_detect text] ->
  forall src tgt txt, ~ In (Call_GoogleTranslator src tgt txt) tr.
Proof.
  intros [-> | ->] src tgt txt; simpl.
  - intros [].
  - intros [H | []]; discriminate.
Qed.

(** ** The stages, one by one *)

Section Stages.

Variable langdetect : N -> PyStr.t -> outcome (option string).
Variable GoogleTranslator :
  string -> string -> PyStr.t -> outcome (option PyStr.t).
Variable gTTS :
  option PyStr.t -> string -> bool -> string -> outcome (list Byte.byte).

Local Open Scope list_scope.


Lemma generator_seed_extend s tr :
  generator_seed (extend s tr) = generator_seed s.
Proof. reflexivity. Qed.

Lemma detect_language_yields text s :
  yields (detect_language langdetect text) s
    (Returns match langdetect (generator_seed s) text with
             | Returns lang => lang
             | Raises _ => None
             end)
    [Call_detect text].
Proof.
  unfold yields, detect_language, try_except, bind, detect, call.
  destruct (langdetect (generator_seed s) text); reflexivity.
Qed.

(** The resolver always returns a language; it calls the detector exactly
    when the selection is ["auto"]. *)
Lemma resolve_source_explicit text source s :
  source <> "auto" ->
  yields (resolve_source langdetect text source) s (Returns source) [].
Proof.
  intros H. unfold resolve_source.
  apply String.eqb_neq in H; rewrite H. apply yields_ret.
Qed.

Lemma resolve_source_auto text s :
  exists lang,
    yields (resolve_source langdetect text "auto") s (Returns lang) [Call_detect text] /\
    (langdetect (generator_seed s) text = Returns (Some lang) /\ lang <> ""
     \/ lang = "en" /\
        forall c, langdetect (generator_seed s) text = Returns (Some c) ->
                  c = "").
Proof.
  unfold resolve_source; simpl.
  pose proof (detect_language_yields text s) as D.
  destruct (langdetect (generator_seed s) text) as [[c|]|msg] eqn:E.
  - destruct (String.eqb_spec c "") as [->|Hc].
    + exists "en"; split.
      * change [Call_detect text] with ([Call_detect text] ++ []).
        eapply yields_bind; [exact D | apply yields_ret].
      * right; split; [reflexivity | congruence].
    + exists c; split.
      * change [Call_detect text] with ([Call_detect text] ++ []).
        eapply yields_bind; [exact D|]. simpl.
        apply String.eqb_neq in Hc; rewrite Hc; apply yields_ret.
      * left; split; [reflexivity|]. intros ->; now apply Hc.
  - exists "en"; split.
    + change [Call_detect text] with ([Call_detect text] ++ []).
      eapply yields_bind; [exact D | apply yields_ret].
    + right; split; [reflexivity | congruence].
  - exists "en"; split.
    + change [Call_detect text] with ([Call_detect text] ++ []).
      eapply yields_bind; [exact D | apply yields_ret].
    + right; split; [reflexivity | congruence].
Qed.

Lemma resolve_source_total text source s :
  exists lang tr,
    yields (resolve_source langdetect text source) s (Returns lang) tr /\
    (tr = [] \/ tr = [Call_detect text]).
Proof.
  destruct (String.eqb_spec source "auto") as [->|H].
  - destruct (resolve_source_auto text s) as [lang [Y _]].
    exists lang, [Call_detect text]; auto.
  - exists source, []; split; [now apply resolve_source_explicit | auto].
Qed.

(** [translate_text] from the resolved language on: the short circuit, or
    one call of the provider with the rewritten target. *)
Lemma translate_text_same text source target s tr :
  yields (resolve_source langdetect text source) s (Returns target) tr ->
  yields (translate_text langdetect GoogleTranslator text source target) s
         (Returns (Some text, Some target, None)) tr.
Proof.
  intros Y. unfold translate_text.
  apply yields_try_returns.
  rewrite <- (app_nil_r tr). eapply yields_bind; [exact Y|].
  simpl. rewrite String.eqb_refl. apply yields_ret.
Qed.

Lemma translate_text_other text source target s lang tr :
  yields (resolve_source langdetect text source) s (Returns lang) tr ->
  lang <> target ->
  let request := Call_GoogleTranslator lang (provider_target target) text in
  yields (translate_text langdetect GoogleTranslator text source target) s
         (Returns match GoogleTranslator lang (provider_target target) text with
                  | Returns translated => (translated, Some lang, None)
                  | Raises e => (None, None, Some e)
                  end)
         (tr ++ [request]).
Proof.
  intros Y Hne request. unfold translate_text.
  apply String.eqb_neq in Hne.
  destruct (GoogleTranslator lang (provider_target target) text)
    as [translated|e] eqn:E.
  - apply yields_try_returns.
    eapply yields_bind; [exact Y|]. simpl. rewrite Hne, E.
    rewrite <- (app_nil_r [request]).
    eapply yields_bind; [apply yields_call | apply yields_ret].
  - rewrite <- (app_nil_r (tr ++ [request])).
    eapply yields_try_raises; [|apply yields_ret].
    eapply yields_bind; [exact Y|]. simpl. rewrite Hne, E.
    apply yields_bind_raises, yields_call.
Qed.

Lemma convert_text_to_speech_yields text lang slow tld s :
  yields (convert_text_to_speech gTTS text lang slow tld) s
         (Returns match gTTS text lang slow tld with
                  | Returns audio_data =>
                      (Some audio_data,
                       Some (Z.of_nat (List.length audio_data) # 1024)%Q,
                       None)
                  | Raises e => (None, None, Some e)
                  end)
         [Call_gTTS text lang slow tld].
Proof.
  unfold convert_text_to_speech.
  destruct (gTTS text lang slow tld) as [audio|e] eqn:E.
  - apply yields_try_returns.
    rewrite <- (app_nil_r [_]).
    eapply yields_bind; [apply yields_call | apply yields_ret].
  - rewrite <- (app_nil_r [_]).
    eapply yields_try_raises; [|apply yields_ret].
    apply yields_bind_raises, yields_call.
Qed.

End Stages.

(** ** The handler *)

Section Handler.

Variable langdetect : N -> PyStr.t -> outcome (option string).
Variable GoogleTranslator :
  string -> string -> PyStr.t -> outcome (option PyStr.t).
Variable gTTS :
  option PyStr.t -> string -> bool -> string -> outcome (list Byte.byte).

Local Open Scope list_scope.


Lemma no_synthesis_app t1 t2 :
  no_synthesis t1 -> no_synthesis t2 -> no_synthesis (t1 ++ t2).
Proof. unfold no_synthesis; rewrite forallb_app; now intros -> ->. Qed.

Lemma no_synthesis_In tr text lang slow tld :
  no_synthesis tr -> ~ In (Call_gTTS text lang slow tld) tr.
Proof.
  unfold no_synthesis; rewrite forallb_forall; intros H Hin.
  specialize (H _ Hin); discriminate.
Qed.

(** [translate_text] always returns a triple, and never calls the
    synthesizer. *)
Lemma translate_text_total text source target s :
  exists res tr,
    yields (translate_text langdetect GoogleTranslator text source target) s (Returns res) tr /\
    no_synthesis tr /\
    ((exists lang, res = (Some text, Some lang, None))
     \/ (exists lang value,
           GoogleTranslator lang (provider_target target) text = Returns value /\
           res = (value, Some lang, None))
     \/ exists e, res = (None, None, Some e)).
Proof.
  destruct (resolve_source_total langdetect text source s)
    as [lang [tr [Y Htr]]].
  assert (Hn : no_synthesis tr) by (destruct Htr; subst; reflexivity).
  destruct (String.eqb_spec lang target) as [->|Hne].
  - eexists _, tr; split; [apply translate_text_same; exact Y|].
    split; [exact Hn | left; eauto].
  - pose proof (translate_text_other langdetect GoogleTranslator _ _ Y Hne) as T.
    simpl in T. eexists _, _; split; [exact T|]. split.
    + apply no_synthesis_app; [exact Hn | reflexivity].
    + destruct (GoogleTranslator lang (provider_target target) text)
        as [value|e] eqn:E; [right; left | right; right]; eauto.
Qed.

Lemma translation_step_disabled w s :
  enable_translation w = false ->
  yields (translation_step langdetect GoogleTranslator w) s (Returns (Some (text_input w))) [].
Proof.
  intros H; unfold translation_step; rewrite H; apply yields_ret.
Qed.

Lemma translation_step_enabled w s res tr :
  enable_translation w = true ->
  yields (translate_text langdetect GoogleTranslator (text_input w) (source_lang w) (lang_code w)) s
         (Returns res) tr ->
  yields (translation_step langdetect GoogleTranslator w) s
         (Returns (fst (translation_display w res)))
         (tr ++ snd (translation_display w res)).
Proof.
  intros H Y; unfold translation_step; rewrite H.
  eapply yields_bind; [exact Y|].
  destruct res as [[translated_text detected_lang] [e|]]; simpl.
  - destruct (negb (e =? "")%string); simpl;
      emits; apply yields_ret.
  - emits; apply yields_ret.
Qed.

Lemma translation_step_total w s :
  exists txt tr,
    yields (translation_step langdetect GoogleTranslator w) s (Returns txt) tr /\ no_synthesis tr.
Proof.
  destruct (enable_translation w) eqn:H.
  - destruct (translate_text_total (text_input w) (source_lang w)
                                   (lang_code w) s) as [res [tr [Y [Hn _]]]].
    eexists _, _; split; [apply (translation_step_enabled _ H Y)|].
    apply no_synthesis_app; [exact Hn|].
    destruct res as [[? ?] [e|]]; simpl; [|reflexivity].
    destruct (negb (e =? "")%string); reflexivity.
  - eexists _, []; split; [now apply translation_step_disabled | reflexivity].
Qed.

Lemma show_audio_total languages w txt audio_data file_size s :
  exists r tr,
    yields (show_audio languages w txt audio_data file_size) s r tr /\
    no_synthesis tr.
Proof.
  unfold show_audio.
  destruct file_size as [kb|], txt as [final|], audio_data as [bytes|];
    eexists _, _;
    (split;
     [emits; first [apply yields_raise | apply yields_emit]
     | reflexivity]).
Qed.

(** Step 2 calls the synthesizer once, first thing, with the language, the
    speed and the variant it was given. *)
Lemma synthesis_step_total languages w tld txt s :
  exists r rest,
    yields (synthesis_step gTTS languages w tld txt) s r
           (Call_gTTS txt (lang_code w) (slow_speech w) tld :: rest) /\
    no_synthesis rest.
Proof.
  unfold synthesis_step.
  pose proof (convert_text_to_speech_yields gTTS txt (lang_code w)
                (slow_speech w) tld s) as C.
  set (request := Call_gTTS txt (lang_code w) (slow_speech w) tld) in *.
  destruct (gTTS txt (lang_code w) (slow_speech w) tld) as [audio|e].
  - destruct (show_audio_total languages w txt (Some audio)
                (Some (Z.of_nat (List.length audio) # 1024)%Q)
                (extend s [request])) as [r [tr [Y Hn]]].
    exists r, tr; split; [|exact Hn].
    apply (yields_bind _ C); exact Y.
  - destruct (String.eqb_spec e "") as [->|He].
    + destruct (show_audio_total languages w txt None None
                  (extend s [request])) as [r [tr [Y Hn]]].
      exists r, tr; split; [|exact Hn].
      apply (yields_bind _ C); exact Y.
    + eexists _, _; split.
      * apply (yields_bind _ C); simpl.
        apply String.eqb_neq in He; rewrite He; simpl.
        apply yields_emit_then, yields_emit.
      * reflexivity.
Qed.

(** A successful synthesis of a text: everything the page then shows. *)
Lemma synthesis_step_success languages w tld final audio s :
  gTTS (Some final) (lang_code w) (slow_speech w) tld = Returns audio ->
  yields (synthesis_step gTTS languages w tld (Some final)) s (Returns tt)
    [Call_gTTS (Some final) (lang_code w) (slow_speech w) tld;
     St_success "Conversion successful!";
     St_audio (Some audio);
     St_metric "File Size"
       (Fixed "" (Z.of_nat (List.length audio) # 1024)%Q 2 " KB");
     St_metric "Output Language"
       (Plain (dict_get languages (lang_code w) (lang_code w)));
     St_metric "Approx Duration"
       (Fixed "~"
          (inject_Z (Z.of_nat (List.length (PyStr.split final))) * (1 # 2))%Q
          1 " sec");
     St_markdown (Md_download_link audio "audio.mp3")].
Proof.
  intros E. unfold synthesis_step.
  pose proof (convert_text_to_speech_yields gTTS (Some final) (lang_code w)
                (slow_speech w) tld s) as C.
  rewrite E in C. apply (yields_bind _ C); simpl.
  unfold show_audio. emits. apply yields_emit.
Qed.

(** Validation, as the specification words it. *)
Lemma validation_empty languages w tld s :
  convert_button w = true ->
  PyStr.whitespace_only (text_input w) ->
  yields (on_convert langdetect GoogleTranslator gTTS languages w tld) s (Returns tt)
         [St_error "Please enter some text to convert!"].
Proof.
  intros Hb Hw. unfold on_convert. rewrite Hb.
  apply PyStrFacts.strip_nil_iff in Hw. rewrite Hw; simpl.
  rewrite orb_true_r. apply yields_emit.
Qed.

Lemma validation_passes t :
  ~ PyStr.whitespace_only t ->
  negb (PyStr.truthy t) || negb (PyStr.truthy (PyStr.strip t)) = false.
Proof.
  intros H. apply orb_false_iff; split; apply negb_false_iff;
    apply not_false_is_true; intros F;
    apply PyStrFacts.truthy_false_iff in F; apply H.
  - subst t; intros ? [].
  - now apply PyStrFacts.strip_nil_iff.
Qed.

Lemma validation_too_long languages w tld s :
  convert_button w = true ->
  ~ PyStr.whitespace_only (text_input w) ->
  (5000 < PyStr.len (text_input w))%Z ->
  yields (on_convert langdetect GoogleTranslator gTTS languages w tld) s (Returns tt)
         [St_error "Text is too long. Please reduce to 5000 characters or less."].
Proof.
  intros Hb Hw Hl. unfold on_convert. rewrite Hb.
  rewrite (validation_passes Hw).
  apply Z.ltb_lt in Hl; rewrite Hl. apply yields_emit.
Qed.

Lemma on_convert_valid languages w tld s :
  convert_button w = true ->
  ~ PyStr.whitespace_only (text_input w) ->
  (PyStr.len (text_input w) <= 5000)%Z ->
  on_convert langdetect GoogleTranslator gTTS languages w tld s =
  (translated_text <- translation_step langdetect GoogleTranslator w ;;
   synthesis_step gTTS languages w tld translated_text) s.
Proof.
  intros Hb Hw Hl. unfold on_convert. rewrite Hb.
  rewrite (validation_passes Hw).
  apply Z.ltb_ge in Hl; rewrite Hl. reflexivity.
Qed.

(** Every run of the handler: nothing, a validation error, or the two
    steps with one synthesizer call between what they show. *)
Lemma on_convert_total languages w tld s :
  exists r tr,
    yields (on_convert langdetect GoogleTranslator gTTS languages w tld) s r tr /\
    (no_synthesis tr \/
     exists txt before rest,
       yields (translation_step langdetect GoogleTranslator w) s
              (Returns txt) before /\
       yields (synthesis_step gTTS languages w tld txt) (extend s before) r
              (Call_gTTS txt (lang_code w) (slow_speech w) tld :: rest) /\
       tr = before ++ Call_gTTS txt (lang_code w) (slow_speech w) tld :: rest
       /\ no_synthesis before /\ no_synthesis rest).
Proof.
  destruct (convert_button w) eqn:Hb.
  2:{ exists (Returns tt), []; split; [|left; reflexivity].
      unfold on_convert; rewrite Hb; apply yields_ret. }
  destruct (PyStr.strip (text_input w)) as [|c rest] eqn:Hs.
  { apply PyStrFacts.strip_nil_iff in Hs.
    eexists _, _; split; [eapply validation_empty; eassumption|].
    left; reflexivity. }
  assert (Hw : ~ PyStr.whitespace_only (text_input w)).
  { intros F; apply PyStrFacts.strip_nil_iff in F; congruence. }
  destruct (Z.ltb_spec 5000 (PyStr.len (text_input w))) as [Hl|Hl].
  { eexists _, _; split; [eapply validation_too_long; eassumption|].
    left; reflexivity. }
  destruct (translation_step_total w s) as [txt [before [Y1 H1]]].
  destruct (synthesis_step_total languages w tld txt (extend s before))
    as [r [after [Y2 H2]]].
  eexists r, _; split.
  - unfold yields. rewrite on_convert_valid by assumption.
    apply (yields_bind _ Y1 Y2).
  - right; exists txt, before, after; auto 6.
Qed.

(** The synthesizer calls of a run are that one call. *)
Lemma on_convert_request languages w tld s text lang slow tld' :
  In (Call_gTTS text lang slow tld')
     (trace_of (on_convert langdetect GoogleTranslator gTTS languages w tld) s) ->
  lang = lang_code w /\ slow = slow_speech w /\ tld' = tld /\
  exists before,
    yields (translation_step langdetect GoogleTranslator w) s
           (Returns text) before.
Proof.
  destruct (on_convert_total languages w tld s) as [r [tr [Y S]]].
  destruct (yields_observed Y) as [_ ->]. intros Hin.
  destruct S as [Hn | (txt & before & rest & Y1 & _ & -> & Hb & Hr)].
  - now apply (no_synthesis_In _ _ _ _ Hn) in Hin.
  - apply in_app_or in Hin. destruct Hin as [Hin | [Heq | Hin]].
    + now apply (no_synthesis_In _ _ _ _ Hb) in Hin.
    + inversion Heq; subst. repeat split; auto. now exists before.
    + now apply (no_synthesis_In _ _ _ _ Hr) in Hin.
Qed.

(** The two outcomes of [translate_text], from the resolved language. *)
Lemma translate_text_cases text source target s :
  exists lang tr,
    yields (resolve_source langdetect text source) s (Returns lang) tr /\
    (tr = [] \/ tr = [Call_detect text]) /\
    (lang = target /\
     yields (translate_text langdetect GoogleTranslator text source target) s
            (Returns (Some text, Some lang, None)) tr
     \/
     lang <> target /\
     yields (translate_text langdetect GoogleTranslator text source target) s
            (Returns match GoogleTranslator lang (provider_target target) text with
                     | Returns translated => (translated, Some lang, None)
                     | Raises e => (None, None, Some e)
                     end)
            (tr ++ [Call_GoogleTranslator lang (provider_target target) text])).
Proof.
  destruct (resolve_source_total langdetect text source s)
    as [lang [tr [Y Htr]]].
  exists lang, tr; split; [exact Y | split; [exact Htr|]].
  destruct (String.eqb_spec lang target) as [E|Hne].
  - left; split; [exact E|]. subst target. now apply translate_text_same.
  - right; split; [exact Hne|].
    exact (translate_text_other langdetect GoogleTranslator _ _ Y Hne).
Qed.

(** The stages read the state through [generator_seed] only. *)
Lemma stable_detect text : stable (detect langdetect text).
Proof.
  intros sa sb E. exists (langdetect (generator_seed sa) text), [Call_detect text].
  unfold yields, detect; rewrite <- E; split; reflexivity.
Qed.

Lemma stable_translate_text text source target :
  stable (translate_text langdetect GoogleTranslator text source target).
Proof.
  unfold translate_text, resolve_source, detect_language.
  destruct (source =? "auto")%string;
    stability; try apply stable_detect.
  all: destruct (_ =? target)%string; stability.
Qed.

Lemma stable_on_convert languages w tld :
  stable (on_convert langdetect GoogleTranslator gTTS languages w tld).
Proof.
  unfold on_convert, translation_step, synthesis_step,
    convert_text_to_speech, show_audio.
  destruct (convert_button w); [|apply stable_ret].
  destruct (_ || _); [apply stable_emit|].
  destruct (_ <? _)%Z; [apply stable_emit|].
  apply stable_bind.
  - destruct (enable_translation w); [|apply stable_ret].
    apply stable_bind; [apply stable_translate_text|].
    intros [[translated_text detected_lang] [e|]]; simpl;
      [destruct (negb (e =? "")%string)|]; stability.
  - intros txt. apply stable_bind; [stability|].
    intros [[audio_data file_size] [e|]]; simpl;
      [destruct (negb (e =? "")%string)|]; stability.
Qed.

End Handler.

(** ** Properties of the pipeline *)

Unset Implicit Arguments.

Section Properties.

Variable langdetect : N -> PyStr.t -> outcome (option string).
Variable GoogleTranslator :
  string -> string -> PyStr.t -> outcome (option PyStr.t).
Variable gTTS :
  option PyStr.t -> string -> bool -> string -> outcome (list Byte.byte).
Variable tts_langs : outcome dict.

Local Open Scope list_scope.

(** How the handler reports a translation error whose message is not empty:
    the error and the notice are shown, and the synthesizer is called with
    the text of the text box and the selected output language. *)
Lemma fallback_on_translation_error languages w tld s tr e :
  convert_button w = true ->
  ~ PyStr.whitespace_only (text_input w) ->
  (PyStr.len (text_input w) <= 5000)%Z ->
  enable_translation w = true ->
  yields (translate_text langdetect GoogleTranslator
            (text_input w) (source_lang w) (lang_code w)) s
         (Returns (None, None, Some e)) tr ->
  e <> "" ->
  exists r rest,
    yields (on_convert langdetect GoogleTranslator gTTS languages w tld) s r
      (tr ++ [St_error ("Translation error: " ++ e);
              St_info "Converting original text to speech instead..."]
          ++ Call_gTTS (Some (text_input w)) (lang_code w) (slow_speech w) tld
          :: rest).
Proof.
  intros Hb Hw Hl Hen Y He.
  pose proof (translation_step_enabled _ Hen Y) as T.
  simpl in T. apply String.eqb_neq in He; rewrite He in T; simpl in T.
  destruct (synthesis_step_total gTTS languages w tld
              (Some (text_input w)) (extend s
                (tr ++ [St_error ("Translation error: " ++ e)%string;
                        St_info "Converting original text to speech instead..."])))
    as [r [rest [Y2 _]]].
  exists r, rest. unfold yields.
  rewrite on_convert_valid by assumption.
  rewrite app_assoc. apply (yields_bind _ T Y2).
Qed.

(** C2: a submission whose text is empty, made of whitespace only, or longer
    than 5000 characters ends at validation: the handler returns after
    showing one error, and its trace holds nothing else, so neither the
    detector, nor the translator, nor the synthesizer is called. *)
Theorem validation_stops_submission languages w tld s :
  convert_button w = true ->
  text_input w = [] \/ PyStr.whitespace_only (text_input w)
  \/ (5000 < PyStr.len (text_input w))%Z ->
  exists msg,
    yields (on_convert langdetect GoogleTranslator gTTS languages w tld) s
           (Returns tt) [St_error msg] /\
    (msg = "Please enter some text to convert!" \/
     msg = "Text is too long. Please reduce to 5000 characters or less.") /\
    forallb (fun e => negb (is_provider_call e)) [St_error msg] = true.
Proof.
  intros Hb H.
  assert (D : PyStr.whitespace_only (text_input w) \/
              ~ PyStr.whitespace_only (text_input w) /\
              (5000 < PyStr.len (text_input w))%Z).
  { destruct H as [E | [W | L]].
    - left; rewrite E; intros ? [].
    - now left.
    - destruct (PyStr.strip (text_input w)) eqn:Hs.
      + left; now apply PyStrFacts.strip_nil_iff.
      + right; split; [|exact L].
        intros F; apply PyStrFacts.strip_nil_iff in F; congruence. }
  destruct D as [W | [W L]]; eexists; (split; [|split; [|reflexivity]]).
  - now apply validation_empty.
  - now left.
  - now apply validation_too_long.
  - now right.
Qed.

(** C10: emptiness is checked before length: a text of more than 5000
    characters that are all whitespace is refused with the empty-text
    message, and that message is the only thing the handler shows. *)
Theorem empty_check_comes_first languages w tld s :
  convert_button w = true ->
  PyStr.whitespace_only (text_input w) ->
  (5000 < PyStr.len (text_input w))%Z ->
  yields (on_convert langdetect GoogleTranslator gTTS languages w tld) s
         (Returns tt) [St_error "Please enter some text to convert!"] /\
  ~ In (St_error "Text is too long. Please reduce to 5000 characters or less.")
       (trace_of (on_convert langdetect GoogleTranslator gTTS languages w tld) s).
Proof.
  intros Hb Hw _.
  pose proof (validation_empty langdetect GoogleTranslator gTTS
                languages _ tld s Hb Hw) as Y.
  split; [exact Y|].
  destruct (yields_observed Y) as [_ ->].
  intros [F | []]; discriminate.
Qed.

(** C3: when the resolved source language is the target language,
    [translate_text] returns the text it was given, that language and no
    error, and adds nothing to what the resolver did: no call of the
    translation provider. *)
Theorem same_language_short_circuit text source target s tr :
  yields (resolve_source langdetect text source) s (Returns target) tr ->
  yields (translate_text langdetect GoogleTranslator text source target) s
         (Returns (Some text, Some target, None)) tr /\
  forall src tgt txt, ~ In (Call_GoogleTranslator src tgt txt) tr.
Proof.
  intros Y; split; [now apply translate_text_same|].
  destruct (resolve_source_total langdetect text source s)
    as [lang [tr' [Y' Htr]]].
  destruct (yields_deterministic Y Y') as [_ ->].
  exact (detection_only Htr).
Qed.

(** C5: when the resolved source differs from the target, the provider is
    called once, with the target rewritten by the table ["zh-cn"] to
    ["zh-CN"], ["zh-tw"] to ["zh-TW"], any other code unchanged. *)
Theorem provider_gets_rewritten_target text source target s lang tr :
  yields (resolve_source langdetect text source) s (Returns lang) tr ->
  lang <> target ->
  (exists res,
     yields (translate_text langdetect GoogleTranslator text source target) s
            (Returns res)
            (tr ++ [Call_GoogleTranslator lang (provider_target target) text])
     /\ forall src tgt txt, ~ In (Call_GoogleTranslator src tgt txt) tr) /\
  provider_target "zh-cn" = "zh-CN" /\
  provider_target "zh-tw" = "zh-TW" /\
  (target <> "zh-cn" -> target <> "zh-tw" -> provider_target target = target).
Proof.
  intros Y Hne. split; [|split; [reflexivity | split; [reflexivity|]]].
  - eexists; split.
    + exact (translate_text_other langdetect GoogleTranslator _ _ Y Hne).
    + destruct (resolve_source_total langdetect text source s)
        as [lang' [tr' [Y' Htr]]].
      destruct (yields_deterministic Y Y') as [_ ->].
      exact (detection_only Htr).
  - intros H1 H2. unfold provider_target.
    apply String.eqb_neq in H1, H2. now rewrite H1, H2.
Qed.


(** C4: with the selection ["auto"] the resolver runs the detector and
    takes its code; when detection raises or returns nothing it takes
    ["en"]; and, the detector returning language codes and not the word
    ["auto"], no successful translation reports or sends ["auto"] as its
    source language. *)
Theorem auto_source_is_resolved text s :
  let detection := langdetect (generator_seed s) text in
  (forall code, detection = Returns (Some code) -> code <> "" ->
     yields (resolve_source langdetect text "auto") s (Returns code)
            [Call_detect text]) /\
  ((forall code, detection = Returns (Some code) -> code = "") ->
     yields (resolve_source langdetect text "auto") s (Returns "en")
            [Call_detect text]) /\
  (detection <> Returns (Some "auto") ->
   forall source target translated resolved tr,
     yields (translate_text langdetect GoogleTranslator text source target) s
            (Returns (translated, Some resolved, None)) tr ->
     resolved <> "auto" /\
     forall src tgt txt,
       In (Call_GoogleTranslator src tgt txt) tr -> src <> "auto").
Proof.
  intros detection.
  destruct (resolve_source_auto langdetect text s) as [lang [Y H]].
  fold detection in H. split; [|split].
  - intros code E Hc. destruct H as [[E' _] | [_ H]].
    + rewrite E in E'. injection E' as ->. exact Y.
    + now apply H in E.
  - intros Hnone. destruct H as [[E' Hl] | [-> _]].
    + now apply Hnone in E'.
    + exact Y.
  - intros Hcode source target translated resolved tr T.
    assert (R : forall l t0,
               yields (resolve_source langdetect text source) s (Returns l) t0 ->
               l <> "auto").
    { intros l t0 Yl. destruct (String.eqb_spec source "auto") as [->|Hs].
      - destruct (yields_deterministic Y Yl) as [El _].
        injection El as <-.
        destruct H as [[E' _] | [-> _]]; [congruence | discriminate].
      - pose proof (resolve_source_explicit langdetect text s Hs) as Ye.
        destruct (yields_deterministic Ye Yl) as [El _].
        now injection El as <-. }
    destruct (translate_text_cases langdetect GoogleTranslator
                text source target s)
      as [l [t0 [Yl [Ht0 [[_ T'] | [_ T']]]]]];
      destruct (yields_deterministic T T') as [Er ->];
      specialize (R l t0 Yl).
    + injection Er as _ ->. split; [exact R|].
      intros src tgt txt Hin. now apply (detection_only Ht0) in Hin.
    + destruct (GoogleTranslator l (provider_target target) text);
        [|discriminate].
      injection Er as _ ->. split; [exact R|].
      intros src tgt txt Hin. apply in_app_or in Hin.
      destruct Hin as [Hin | [Hin | []]].
      * now apply (detection_only Ht0) in Hin.
      * now injection Hin as <- _ _.
Qed.

(** One run of the script is the handler, run after the seed is pinned and
    the language table fetched, with the [tld] the sidebar chose. *)
Lemma script_runs_handler w s :
  script langdetect GoogleTranslator gTTS tts_langs w s =
  on_convert langdetect GoogleTranslator gTTS
             match tts_langs with
             | Returns table => table
             | Raises _ => fallback_languages
             end
             w (sidebar_tld w)
             (extend (snd (seed_detector s)) [Call_tts_langs]).
Proof.
  unfold script, bind, seed_detector, get_supported_languages, try_except,
    call, ret.
  destruct tts_langs as [d|msg]; reflexivity.
Qed.

Lemma script_observed w s r tr :
  yields (on_convert langdetect GoogleTranslator gTTS
                     match tts_langs with
                     | Returns table => table
                     | Raises _ => fallback_languages
                     end
                     w (sidebar_tld w))
         (extend (snd (seed_detector s)) [Call_tts_langs]) r tr ->
  result_of (script langdetect GoogleTranslator gTTS tts_langs w) s = r /\
  trace_of (script langdetect GoogleTranslator gTTS tts_langs w) s =
  Call_tts_langs :: tr /\
  DetectorFactory_seed
    (snd (script langdetect GoogleTranslator gTTS tts_langs w s)) = Some 0%N.
Proof.
  intros Y. unfold result_of, trace_of.
  rewrite script_runs_handler, Y; simpl.
  repeat split.
  rewrite <- app_assoc, skipn_app, skipn_all, Nat.sub_diag; reflexivity.
Qed.

Lemma script_yields w s :
  exists languages r tr,
    yields (on_convert langdetect GoogleTranslator gTTS languages w
                       (sidebar_tld w))
           (extend (snd (seed_detector s)) [Call_tts_langs]) r tr /\
    result_of (script langdetect GoogleTranslator gTTS tts_langs w) s = r /\
    trace_of (script langdetect GoogleTranslator gTTS tts_langs w) s =
    Call_tts_langs :: tr.
Proof.
  destruct (on_convert_total langdetect GoogleTranslator gTTS
              match tts_langs with
              | Returns table => table
              | Raises _ => fallback_languages
              end w
              (sidebar_tld w) (extend (snd (seed_detector s)) [Call_tts_langs]))
    as [r [tr [Y _]]].
  eexists _, r, tr; split; [exact Y|].
  destruct (@script_observed w s _ _ Y) as (? & ? & _); auto.
Qed.

(** C6: whatever the [Accent] box holds, the synthesizer is called with the
    output language of the form; when that language is not ["en"] the
    variant it receives is ["com"], and a variant other than ["com"] is
    received only when the language is ["en"]. *)
Theorem accent_only_for_english w s text lang slow tld :
  In (Call_gTTS text lang slow tld)
     (trace_of (script langdetect GoogleTranslator gTTS tts_langs w) s) ->
  lang = lang_code w /\
  (lang_code w <> "en" -> tld = "com") /\
  (tld <> "com" -> lang = "en").
Proof.
  destruct (script_yields w s) as (languages & r & tr & Y & _ & ->).
  intros [F | Hin]; [discriminate|].
  destruct (yields_observed Y) as [_ Et]. rewrite <- Et in Hin.
  apply on_convert_request in Hin. destruct Hin as (-> & _ & -> & _).
  unfold sidebar_tld.
  destruct (String.eqb_spec (lang_code w) "en") as [E|Hne].
  - split; [reflexivity | split]; [intros H; now elim H | now intros _].
  - split; [reflexivity | split]; [reflexivity | intros H; now elim H].
Qed.

(** C7: after a successful synthesis of a text, the size returned and shown
    is the number of audio bytes divided by 1024, and the duration shown is
    half the number of whitespace-separated words of the text that was
    synthesized; the audio does not enter the duration. *)
Theorem metrics_are_exact languages w tld s final lang slow tld' audio :
  In (Call_gTTS (Some final) lang slow tld')
     (trace_of (on_convert langdetect GoogleTranslator gTTS languages w tld) s) ->
  gTTS (Some final) lang slow tld' = Returns audio ->
  exists kb seconds,
    (forall s',
        result_of (convert_text_to_speech gTTS (Some final) lang slow tld') s'
        = Returns (Some audio, Some kb, None)) /\
    In (St_metric "File Size" (Fixed "" kb 2 " KB"))
       (trace_of (on_convert langdetect GoogleTranslator gTTS languages w tld) s) /\
    In (St_metric "Approx Duration" (Fixed "~" seconds 1 " sec"))
       (trace_of (on_convert langdetect GoogleTranslator gTTS languages w tld) s) /\
    (kb == inject_Z (Z.of_nat (List.length audio)) / inject_Z 1024)%Q /\
    (seconds == (1 # 2) * inject_Z (Z.of_nat (PyStr.word_count final)))%Q.
Proof.
  intros Hin E.
  exists (Z.of_nat (List.length audio) # 1024)%Q,
         (inject_Z (Z.of_nat (List.length (PyStr.split final))) * (1 # 2))%Q.
  split; [|split; [|split; [|split]]].
  - intros s'.
    pose proof (convert_text_to_speech_yields gTTS (Some final) lang slow
                  tld' s') as C.
    rewrite E in C. now destruct (yields_observed C).
  - destruct (on_convert_total langdetect GoogleTranslator gTTS
                languages w tld s) as [r [tr [Y S]]].
    destruct (yields_observed Y) as [_ Et]. rewrite Et in *.
    destruct S as [Hn | (txt & before & rest & _ & Y2 & -> & Hb & Hr)].
    { now apply (no_synthesis_In _ _ _ _ Hn) in Hin. }
    apply in_app_or in Hin. destruct Hin as [Hin | [Heq | Hin]];
      [now apply (no_synthesis_In _ _ _ _ Hb) in Hin | |
       now apply (no_synthesis_In _ _ _ _ Hr) in Hin].
    injection Heq as E1 E2 E3 E4. subst txt lang slow tld'.
    pose proof (@synthesis_step_success gTTS languages w tld final audio
                  (extend s before) E) as Y3.
    destruct (yields_deterministic Y2 Y3) as [_ Er].
    injection Er as ->. apply in_or_app; right; simpl; auto 6.
  - destruct (on_convert_total langdetect GoogleTranslator gTTS
                languages w tld s) as [r [tr [Y S]]].
    destruct (yields_observed Y) as [_ Et]. rewrite Et in *.
    destruct S as [Hn | (txt & before & rest & _ & Y2 & -> & Hb & Hr)].
    { now apply (no_synthesis_In _ _ _ _ Hn) in Hin. }
    apply in_app_or in Hin. destruct Hin as [Hin | [Heq | Hin]];
      [now apply (no_synthesis_In _ _ _ _ Hb) in Hin | |
       now apply (no_synthesis_In _ _ _ _ Hr) in Hin].
    injection Heq as E1 E2 E3 E4. subst txt lang slow tld'.
    pose proof (@synthesis_step_success gTTS languages w tld final audio
                  (extend s before) E) as Y3.
    destruct (yields_deterministic Y2 Y3) as [_ Er].
    injection Er as ->. apply in_or_app; right; simpl; auto 8.
  - generalize (Z.of_nat (List.length audio)); intros n.
    unfold Qeq, Qdiv, Qmult, Qinv, inject_Z; cbn [Qnum Qden]. lia.
  - rewrite PyStrFacts.length_split.
    generalize (Z.of_nat (PyStr.word_count final)); intros n.
    unfold Qeq, Qmult, inject_Z; cbn [Qnum Qden]. lia.
Qed.

(** C9: the script pins [DetectorFactory.seed] before anything else, so a
    detection does not see the entropy of the run: on the same text it
    gives the same code from any two states, a whole run gives the same
    result and the same events from any two states, and the seed is still
    pinned when the run ends. *)
Theorem detection_is_seeded :
  (forall text s1 s2,
      result_of (seed_detector ;; detect_language langdetect text) s1 =
      result_of (seed_detector ;; detect_language langdetect text) s2) /\
  (forall w s1 s2,
      result_of (script langdetect GoogleTranslator gTTS tts_langs w) s1 =
      result_of (script langdetect GoogleTranslator gTTS tts_langs w) s2 /\
      trace_of (script langdetect GoogleTranslator gTTS tts_langs w) s1 =
      trace_of (script langdetect GoogleTranslator gTTS tts_langs w) s2) /\
  (forall w s,
      DetectorFactory_seed
        (snd (script langdetect GoogleTranslator gTTS tts_langs w s))
      = Some 0%N).
Proof.
  split; [|split].
  - intros text s1 s2.
    assert (R : forall s,
               result_of (seed_detector ;; detect_language langdetect text) s =
               Returns match langdetect 0%N text with
                       | Returns lang => lang
                       | Raises _ => None
                       end).
    { intros s.
      pose proof (detect_language_yields langdetect text
                    (snd (seed_detector s))) as Y.
      unfold result_of, bind; simpl. now rewrite Y. }
    now rewrite !R.
  - intros w s1 s2.
    destruct (stable_on_convert langdetect GoogleTranslator gTTS
                match tts_langs with
                | Returns table => table
                | Raises _ => fallback_languages
                end w (sidebar_tld w)
                (extend (snd (seed_detector s1)) [Call_tts_langs])
                (extend (snd (seed_detector s2)) [Call_tts_langs])
                eq_refl) as [r [tr [Y1 Y2]]].
    destruct (@script_observed w s1 _ _ Y1) as (-> & -> & _).
    destruct (@script_observed w s2 _ _ Y2) as (-> & -> & _).
    split; reflexivity.
  - intros w s.
    destruct (script_yields w s) as (? & r & tr & _).
    destruct (on_convert_total langdetect GoogleTranslator gTTS
                match tts_langs with
                | Returns table => table
                | Raises _ => fallback_languages
                end w (sidebar_tld w)
                (extend (snd (seed_detector s)) [Call_tts_langs]))
      as [r' [tr' [Y _]]].
    now destruct (@script_observed w s _ _ Y) as (_ & _ & ?).
Qed.

End Properties.

(** ** More about the handler *)

Section HandlerRuns.

Variable langdetect : N -> PyStr.t -> outcome (option string).
Variable GoogleTranslator :
  string -> string -> PyStr.t -> outcome (option PyStr.t).
Variable gTTS :
  option PyStr.t -> string -> bool -> string -> outcome (list Byte.byte).
Variable tts_langs : outcome dict.

Local Open Scope list_scope.

Lemma count_app p t1 t2 : count p (t1 ++ t2) = count p t1 + count p t2.
Proof. unfold count. now rewrite filter_app, length_app. Qed.

Lemma count_zero p tr :
  forallb (fun e => negb (p e)) tr = true -> count p tr = 0.
Proof.
  unfold count; induction tr as [|e tr IH]; simpl; [reflexivity|].
  intros H. apply andb_true_iff in H. destruct H as [He Ht].
  apply negb_true_iff in He. rewrite He. now apply IH.
Qed.

Lemma forallb_weaken (p q : event -> bool) tr :
  (forall e, p e = true -> q e = true) ->
  forallb p tr = true -> forallb q tr = true.
Proof.
  intros H. rewrite !forallb_forall. intros Hp e He. now apply H, Hp.
Qed.

Lemma no_calls_no_synthesis tr : no_calls tr -> no_synthesis tr.
Proof.
  apply forallb_weaken. intros [] H; simpl in *; congruence.
Qed.

Lemma no_calls_count_detection tr : no_calls tr -> count is_detection tr = 0.
Proof.
  intros H. apply count_zero. revert H.
  apply forallb_weaken. intros [] H; simpl in *; congruence.
Qed.

Lemma no_calls_count_translation tr :
  no_calls tr -> count is_translation tr = 0.
Proof.
  intros H. apply count_zero. revert H.
  apply forallb_weaken. intros [] H; simpl in *; congruence.
Qed.

Lemma no_calls_count_synthesis tr : no_calls tr -> count is_synthesis tr = 0.
Proof.
  intros H. apply count_zero. revert H.
  apply forallb_weaken. intros [] H; simpl in *; congruence.
Qed.

Lemma no_calls_app t1 t2 : no_calls t1 -> no_calls t2 -> no_calls (t1 ++ t2).
Proof. unfold no_calls; rewrite forallb_app; now intros -> ->. Qed.

Lemma no_audio_output_app t1 t2 :
  no_audio_output t1 -> no_audio_output t2 -> no_audio_output (t1 ++ t2).
Proof. unfold no_audio_output; rewrite forallb_app; now intros -> ->. Qed.

(** What step 1 shows is never a call, a player, a metric or a link. *)
Lemma translation_display_page w res :
  no_calls (snd (translation_display w res)) /\
  no_audio_output (snd (translation_display w res)).
Proof.
  destruct res as [[translated_text detected_lang] [e|]]; simpl;
    [destruct (negb (e =? "")%string)|]; split; reflexivity.
Qed.

(** Step 1, in full: the resolver's trace, at most one call of the
    provider, what is shown. *)
Lemma translation_step_shape w s :
  enable_translation w = true ->
  exists lang tr0 request res,
    yields (resolve_source langdetect (text_input w) (source_lang w)) s
           (Returns lang) tr0 /\
    (tr0 = [] \/ tr0 = [Call_detect (text_input w)]) /\
    (lang = lang_code w /\ request = [] /\
     res = (Some (text_input w), Some lang, None)
     \/
     lang <> lang_code w /\
     request = [Call_GoogleTranslator lang (provider_target (lang_code w))
                                      (text_input w)] /\
     res = match GoogleTranslator lang (provider_target (lang_code w))
                                  (text_input w) with
           | Returns translated => (translated, Some lang, None)
           | Raises e => (None, None, Some e)
           end) /\
    yields (translation_step langdetect GoogleTranslator w) s
           (Returns (fst (translation_display w res)))
           (tr0 ++ request ++ snd (translation_display w res)).
Proof.
  intros Hen.
  destruct (translate_text_cases langdetect GoogleTranslator
              (text_input w) (source_lang w) (lang_code w) s)
    as [lang [tr0 [Y0 [Ht0 [[E T] | [Hne T]]]]]].
  - exists lang, tr0, [], (Some (text_input w), Some lang, None).
    split; [exact Y0 | split; [exact Ht0 | split; [left; auto|]]].
    exact (translation_step_enabled w Hen T).
  - eexists lang, tr0, _, _.
    split; [exact Y0 | split; [exact Ht0 | split; [right; eauto|]]].
    rewrite app_assoc. exact (translation_step_enabled w Hen T).
Qed.

Lemma show_audio_page languages w txt audio_data file_size s :
  exists r tr,
    yields (show_audio languages w txt audio_data file_size) s r tr /\
    no_calls tr.
Proof.
  unfold show_audio.
  destruct file_size as [kb|], txt as [final|], audio_data as [bytes|];
    eexists _, _;
    (split;
     [emits; first [apply yields_raise | apply yields_emit]
     | reflexivity]).
Qed.

(** Step 2, in full: the call, then only things shown on the page. *)
Lemma synthesis_step_shape languages w tld txt s :
  exists r rest,
    yields (synthesis_step gTTS languages w tld txt) s r
           (Call_gTTS txt (lang_code w) (slow_speech w) tld :: rest) /\
    no_calls rest.
Proof.
  unfold synthesis_step.
  pose proof (convert_text_to_speech_yields gTTS txt (lang_code w)
                (slow_speech w) tld s) as C.
  set (request := Call_gTTS txt (lang_code w) (slow_speech w) tld) in *.
  destruct (gTTS txt (lang_code w) (slow_speech w) tld) as [audio|e].
  - destruct (show_audio_page languages w txt (Some audio)
                (Some (Z.of_nat (List.length audio) # 1024)%Q)
                (extend s [request])) as [r [tr [Y Hn]]].
    exists r, tr; split; [|exact Hn].
    apply (yields_bind _ C); exact Y.
  - destruct (String.eqb_spec e "") as [->|He].
    + destruct (show_audio_page languages w txt None None
                  (extend s [request])) as [r [tr [Y Hn]]].
      exists r, tr; split; [|exact Hn].
      apply (yields_bind _ C); exact Y.
    + eexists _, _; split.
      * apply (yields_bind _ C); simpl.
        apply String.eqb_neq in He; rewrite He; simpl.
        apply yields_emit_then, yields_emit.
      * reflexivity.
Qed.

(** A valid submission, in full. *)
Lemma on_convert_shape languages w tld s :
  convert_button w = true ->
  valid_text (text_input w) ->
  exists txt before r rest,
    yields (translation_step langdetect GoogleTranslator w) s
           (Returns txt) before /\
    yields (synthesis_step gTTS languages w tld txt) (extend s before) r
           (Call_gTTS txt (lang_code w) (slow_speech w) tld :: rest) /\
    no_synthesis before /\ no_audio_output before /\
    count is_detection before <= 1 /\ count is_translation before <= 1 /\
    no_calls rest /\
    yields (on_convert langdetect GoogleTranslator gTTS languages w tld) s r
           (before ++ Call_gTTS txt (lang_code w) (slow_speech w) tld :: rest).
Proof.
  intros Hb [Hw Hl].
  assert (S1 : exists txt before,
             yields (translation_step langdetect GoogleTranslator w) s
                    (Returns txt) before /\
             no_synthesis before /\ no_audio_output before /\
             count is_detection before <= 1 /\
             count is_translation before <= 1).
  { destruct (enable_translation w) eqn:Hen.
    - destruct (translation_step_shape w s Hen)
        as (lang & tr0 & request & res & _ & Ht0 & Hr & Y).
      destruct (translation_display_page w res) as [D1 D2].
      eexists _, _; split; [exact Y|].
      assert (R : request = [] \/
                  request = [Call_GoogleTranslator lang
                               (provider_target (lang_code w)) (text_input w)]).
      { destruct Hr as [(_ & -> & _) | (_ & -> & _)]; auto. }
      clear Hr Y. rewrite !count_app.
      rewrite (no_calls_count_detection _ D1).
      rewrite (no_calls_count_translation _ D1).
      apply no_calls_no_synthesis in D1.
      destruct Ht0 as [-> | ->], R as [-> | ->]; simpl;
        (split; [apply D1 || (apply no_synthesis_app; [reflexivity | exact D1])
                | split; [apply D2 ||
                          (apply no_audio_output_app; [reflexivity | exact D2])
                         | split; unfold count; simpl; lia]]).
    - exists (Some (text_input w)), []; split;
        [now apply translation_step_disabled|].
      repeat split; unfold count; simpl; lia. }
  destruct S1 as (txt & before & Y1 & N1 & A1 & C1 & C2).
  destruct (synthesis_step_shape languages w tld txt (extend s before))
    as (r & rest & Y2 & N2).
  exists txt, before, r, rest. repeat (split; [assumption|]).
  unfold yields. rewrite on_convert_valid by assumption.
  exact (yields_bind _ Y1 Y2).
Qed.

Lemma submission_cases w :
  convert_button w = false \/
  convert_button w = true /\ PyStr.whitespace_only (text_input w) \/
  convert_button w = true /\ ~ PyStr.whitespace_only (text_input w) /\
    (5000 < PyStr.len (text_input w))%Z \/
  convert_button w = true /\ valid_text (text_input w).
Proof.
  destruct (convert_button w); [right | now left].
  destruct (PyStr.strip (text_input w)) as [|c rest] eqn:Hs.
  { left; split; [reflexivity | now apply PyStrFacts.strip_nil_iff]. }
  assert (Hw : ~ PyStr.whitespace_only (text_input w)).
  { intros F; apply PyStrFacts.strip_nil_iff in F; congruence. }
  right. destruct (Z.ltb_spec 5000 (PyStr.len (text_input w))) as [Hl|Hl].
  - left; auto.
  - right; repeat split; assumption.
Qed.

(** A run that does not get past validation: what it yields. *)
Lemma rejected_submission languages w tld s :
  convert_button w = false \/
  convert_button w = true /\ PyStr.whitespace_only (text_input w) \/
  convert_button w = true /\ ~ PyStr.whitespace_only (text_input w) /\
    (5000 < PyStr.len (text_input w))%Z ->
  exists tr,
    yields (on_convert langdetect GoogleTranslator gTTS languages w tld) s
           (Returns tt) tr /\
    no_calls tr /\ no_audio_output tr.
Proof.
  intros [Hb | [[Hb Hw] | [Hb [Hw Hl]]]]; eexists; split.
  - unfold on_convert; rewrite Hb; apply yields_ret.
  - split; reflexivity.
  - now apply validation_empty.
  - split; reflexivity.
  - now apply validation_too_long.
  - split; reflexivity.
Qed.

(** X1: a valid submission reaches the synthesizer: whatever happens in the
    translation step, the synthesizer is called exactly once, with the
    selected language, speed and variant, and nothing is called after it. *)
Theorem valid_submission_reaches_synthesis languages w tld s :
  convert_button w = true ->
  valid_text (text_input w) ->
  let run := trace_of (on_convert langdetect GoogleTranslator gTTS
                                  languages w tld) s in
  count is_synthesis run = 1 /\
  exists txt before rest,
    run = before ++ Call_gTTS txt (lang_code w) (slow_speech w) tld :: rest /\
    no_synthesis before /\ no_calls rest.
Proof.
  intros Hb Hv run.
  destruct (on_convert_shape languages w tld s Hb Hv)
    as (txt & before & r & rest & _ & _ & N1 & _ & _ & _ & N2 & Y).
  destruct (yields_observed Y) as [_ Et]. subst run. rewrite Et. split.
  - rewrite count_app. change (Call_gTTS txt (lang_code w) (slow_speech w) tld :: rest)
      with ([Call_gTTS txt (lang_code w) (slow_speech w) tld] ++ rest).
    rewrite count_app, (no_calls_count_synthesis _ N2).
    rewrite (count_zero is_synthesis before N1). reflexivity.
  - exists txt, before, rest; auto.
Qed.

(** X2: no retry: one press of the button calls the detector, the translation
    provider and the synthesizer at most once each. *)
Theorem each_provider_called_at_most_once languages w tld s :
  let run := trace_of (on_convert langdetect GoogleTranslator gTTS
                                  languages w tld) s in
  count is_detection run <= 1 /\
  count is_translation run <= 1 /\
  count is_synthesis run <= 1.
Proof.
  intros run.
  destruct (submission_cases w) as [H | [H | [H | [Hb Hv]]]].
  1-3: destruct (rejected_submission languages w tld s) as (tr & Y & N & _);
         [tauto|];
       destruct (yields_observed Y) as [_ Et]; subst run; rewrite Et;
       rewrite (no_calls_count_detection _ N),
               (no_calls_count_translation _ N),
               (no_calls_count_synthesis _ N); lia.
  destruct (on_convert_shape languages w tld s Hb Hv)
    as (txt & before & r & rest & _ & _ & N1 & _ & C1 & C2 & N2 & Y).
  destruct (yields_observed Y) as [_ Et]. subst run. rewrite Et.
  change (Call_gTTS txt (lang_code w) (slow_speech w) tld :: rest)
    with ([Call_gTTS txt (lang_code w) (slow_speech w) tld] ++ rest).
  rewrite !count_app.
  rewrite (no_calls_count_detection _ N2), (no_calls_count_translation _ N2),
    (no_calls_count_synthesis _ N2), (count_zero is_synthesis before N1).
  revert C1 C2.
  generalize (count is_detection before), (count is_translation before).
  intros n m Hn Hm. unfold count; simpl. lia.
Qed.

(** X3: with translation disabled the text of the text box goes to the
    synthesizer as it is (not stripped, not translated), first thing, and no
    other provider is called: no detection, no translation. *)
Theorem disabled_translation_is_verbatim languages w tld s :
  convert_button w = true ->
  valid_text (text_input w) ->
  enable_translation w = false ->
  exists r rest,
    yields (on_convert langdetect GoogleTranslator gTTS languages w tld) s r
           (Call_gTTS (Some (text_input w)) (lang_code w) (slow_speech w) tld
            :: rest) /\
    no_calls rest.
Proof.
  intros Hb [Hw Hl] Hen.
  pose proof (translation_step_disabled langdetect GoogleTranslator w s Hen)
    as Y1.
  destruct (synthesis_step_shape languages w tld (Some (text_input w))
              (extend s [])) as (r & rest & Y2 & N2).
  exists r, rest; split; [|exact N2].
  unfold yields. rewrite on_convert_valid by assumption.
  exact (yields_bind _ Y1 Y2).
Qed.

(** Step 2 when the synthesizer fails with a message. *)
Lemma synthesis_step_failure languages w tld txt e s :
  gTTS txt (lang_code w) (slow_speech w) tld = Raises e ->
  e <> "" ->
  yields (synthesis_step gTTS languages w tld txt) s (Returns tt)
    [Call_gTTS txt (lang_code w) (slow_speech w) tld;
     St_error ("Error: " ++ e);
     St_info "Tip: Make sure you have an internet connection. gTTS requires internet to work."].
Proof.
  intros E He. unfold synthesis_step.
  pose proof (convert_text_to_speech_yields gTTS txt (lang_code w)
                (slow_speech w) tld s) as C.
  rewrite E in C. apply (yields_bind _ C); simpl.
  apply String.eqb_neq in He; rewrite He; simpl.
  apply yields_emit_then, yields_emit.
Qed.

(** Step 2 when the synthesizer fails with an empty message. *)
Lemma synthesis_step_silent_failure languages w tld txt s :
  gTTS txt (lang_code w) (slow_speech w) tld = Raises "" ->
  yields (synthesis_step gTTS languages w tld txt) s
    (Raises "unsupported format string passed to NoneType.__format__")
    [Call_gTTS txt (lang_code w) (slow_speech w) tld;
     St_success "Conversion successful!";
     St_audio None].
Proof.
  intros E. unfold synthesis_step.
  pose proof (convert_text_to_speech_yields gTTS txt (lang_code w)
                (slow_speech w) tld s) as C.
  rewrite E in C. apply (yields_bind _ C); simpl.
  unfold show_audio. emits. apply yields_raise.
Qed.

(** The synthesizer call of a run, and what follows it. *)
Lemma synthesis_call_of_run languages w tld s txt lang slow tld' :
  In (Call_gTTS txt lang slow tld')
     (trace_of (on_convert langdetect GoogleTranslator gTTS languages w tld) s) ->
  lang = lang_code w /\ slow = slow_speech w /\ tld' = tld /\
  exists before r rest,
    yields (synthesis_step gTTS languages w tld txt) (extend s before) r
           (Call_gTTS txt (lang_code w) (slow_speech w) tld :: rest) /\
    no_audio_output before /\
    yields (on_convert langdetect GoogleTranslator gTTS languages w tld) s r
           (before ++ Call_gTTS txt (lang_code w) (slow_speech w) tld :: rest).
Proof.
  intros Hin.
  destruct (submission_cases w) as [H | [H | [H | [Hb Hv]]]].
  1-3: destruct (rejected_submission languages w tld s) as (tr & Y & N & _);
         [tauto|];
       destruct (yields_observed Y) as [_ Et]; rewrite Et in Hin;
       now apply (no_synthesis_In _ _ _ _ (no_calls_no_synthesis _ N)) in Hin.
  destruct (on_convert_shape languages w tld s Hb Hv)
    as (txt' & before & r & rest & _ & Y2 & N1 & A1 & _ & _ & N2 & Y).
  destruct (yields_observed Y) as [_ Et]. rewrite Et in Hin.
  apply in_app_or in Hin. destruct Hin as [Hin | [Heq | Hin]].
  - now apply (no_synthesis_In _ _ _ _ N1) in Hin.
  - injection Heq as E1 E2 E3 E4. subst txt' lang slow tld'.
    repeat split. exists before, r, rest; auto.
  - now apply (no_synthesis_In _ _ _ _ (no_calls_no_synthesis _ N2)) in Hin.
Qed.

(** X4: a synthesis failure with a message ends the submission without
    audio: the handler returns after showing the error and the connection
    tip, and the run shows no player, no metric and no download link. *)
Theorem synthesis_failure_is_reported languages w tld s txt lang slow tld' e :
  In (Call_gTTS txt lang slow tld')
     (trace_of (on_convert langdetect GoogleTranslator gTTS languages w tld) s) ->
  gTTS txt lang slow tld' = Raises e ->
  e <> "" ->
  result_of (on_convert langdetect GoogleTranslator gTTS languages w tld) s
  = Returns tt /\
  (exists before,
     trace_of (on_convert langdetect GoogleTranslator gTTS languages w tld) s
     = before ++
       [Call_gTTS txt lang slow tld';
        St_error ("Error: " ++ e);
        St_info "Tip: Make sure you have an internet connection. gTTS requires internet to work."]) /\
  no_audio_output
    (trace_of (on_convert langdetect GoogleTranslator gTTS languages w tld) s).
Proof.
  intros Hin E He.
  destruct (synthesis_call_of_run languages w tld s txt lang slow tld' Hin)
    as (-> & -> & -> & before & r & rest & Y2 & A1 & Y).
  pose proof (synthesis_step_failure languages w tld txt e (extend s before)
                E He) as Y3.
  destruct (yields_deterministic Y2 Y3) as [-> Er]. injection Er as ->.
  destruct (yields_observed Y) as [-> ->].
  split; [reflexivity | split; [now exists before|]].
  apply no_audio_output_app; [exact A1 | reflexivity].
Qed.

(** X5: a synthesis failure whose message is empty is not caught by the
    handler's test: the page announces a successful conversion, shows no
    error after the call, and the handler ends on an unhandled exception
    (there is no size to format). *)
Theorem synthesis_failure_without_message languages w tld s txt lang slow tld' :
  In (Call_gTTS txt lang slow tld')
     (trace_of (on_convert langdetect GoogleTranslator gTTS languages w tld) s) ->
  gTTS txt lang slow tld' = Raises "" ->
  (exists msg,
     result_of (on_convert langdetect GoogleTranslator gTTS languages w tld) s
     = Raises msg) /\
  exists before rest,
    trace_of (on_convert langdetect GoogleTranslator gTTS languages w tld) s
    = before ++
      Call_gTTS txt lang slow tld' :: St_success "Conversion successful!"
      :: rest /\
    forall msg, ~ In (St_error msg) rest.
Proof.
  intros Hin E.
  destruct (synthesis_call_of_run languages w tld s txt lang slow tld' Hin)
    as (-> & -> & -> & before & r & rest & Y2 & A1 & Y).
  pose proof (synthesis_step_silent_failure languages w tld txt
                (extend s before) E) as Y3.
  destruct (yields_deterministic Y2 Y3) as [-> Er]. injection Er as ->.
  destruct (yields_observed Y) as [-> ->].
  split; [eexists; reflexivity|].
  exists before, [St_audio None]. split; [reflexivity|].
  intros msg [F | []]; discriminate.
Qed.

Lemma no_calls_In tr e : no_calls tr -> In e tr -> is_provider_call e = false.
Proof.
  unfold no_calls; rewrite forallb_forall; intros H Hin.
  now apply negb_true_iff, H.
Qed.

(** The calls of step 1. *)
Lemma translation_step_calls w s txt before :
  yields (translation_step langdetect GoogleTranslator w) s (Returns txt)
         before ->
  (forall t, In (Call_detect t) before ->
     enable_translation w = true /\ source_lang w = "auto" /\
     t = text_input w) /\
  (forall src tgt t, In (Call_GoogleTranslator src tgt t) before ->
     enable_translation w = true /\ t = text_input w /\
     tgt = provider_target (lang_code w) /\ src <> lang_code w /\
     (source_lang w <> "auto" -> src = source_lang w)).
Proof.
  intros Y. destruct (enable_translation w) eqn:Hen.
  2:{ pose proof (translation_step_disabled langdetect GoogleTranslator w s Hen)
        as Y'.
      destruct (yields_deterministic Y Y') as [_ ->].
      split; intros; contradiction. }
  destruct (translation_step_shape w s Hen)
    as (lang & tr0 & request & res & Y0 & Ht0 & Hr & Y').
  destruct (yields_deterministic Y Y') as [_ ->].
  destruct (translation_display_page w res) as [D _].
  assert (Hexp : source_lang w <> "auto" -> tr0 = [] /\ lang = source_lang w).
  { intros Hs.
    pose proof (resolve_source_explicit langdetect (text_input w) s Hs) as Ye.
    destruct (yields_deterministic Y0 Ye) as [El ->].
    now injection El as ->. }
  split.
  - intros t Hin. apply in_app_or in Hin. destruct Hin as [Hin | Hin].
    + destruct Ht0 as [-> | ->]; [contradiction|].
      destruct Hin as [Hin | []]. injection Hin as <-.
      repeat split.
      destruct (String.eqb_spec (source_lang w) "auto") as [E|Hs]; [exact E|].
      destruct (Hexp Hs) as [F _]; discriminate.
    + apply in_app_or in Hin. destruct Hin as [Hin | Hin].
      * destruct Hr as [(_ & -> & _) | (_ & -> & _)]; [contradiction|].
        destruct Hin as [Hin | []]; discriminate.
      * apply (no_calls_In _ _ D) in Hin; discriminate.
  - intros src tgt t Hin. apply in_app_or in Hin. destruct Hin as [Hin | Hin].
    + destruct Ht0 as [-> | ->]; [contradiction|].
      destruct Hin as [Hin | []]; discriminate.
    + apply in_app_or in Hin. destruct Hin as [Hin | Hin].
      * destruct Hr as [(_ & -> & _) | (Hne & -> & _)]; [contradiction|].
        destruct Hin as [Hin | []]. injection Hin as <- <- <-.
        repeat split; [exact Hne|].
        intros Hs. now destruct (Hexp Hs).
      * apply (no_calls_In _ _ D) in Hin; discriminate.
Qed.

(** X6: detection is never run unless translation is enabled and the source
    selection is ["auto"], and then it is run on the text of the text box. *)
Theorem detection_only_for_auto languages w tld s t :
  In (Call_detect t)
     (trace_of (on_convert langdetect GoogleTranslator gTTS languages w tld) s) ->
  enable_translation w = true /\ source_lang w = "auto" /\ t = text_input w.
Proof.
  intros Hin.
  destruct (submission_cases w) as [H | [H | [H | [Hb Hv]]]].
  1-3: destruct (rejected_submission languages w tld s) as (tr & Y & N & _);
         [tauto|];
       destruct (yields_observed Y) as [_ Et]; rewrite Et in Hin;
       apply (no_calls_In _ _ N) in Hin; discriminate.
  destruct (on_convert_shape languages w tld s Hb Hv)
    as (txt & before & r & rest & Y1 & _ & _ & _ & _ & _ & N2 & Y).
  destruct (yields_observed Y) as [_ Et]. rewrite Et in Hin.
  apply in_app_or in Hin. destruct Hin as [Hin | [Heq | Hin]].
  - now apply (translation_step_calls w s txt before Y1).
  - discriminate.
  - apply (no_calls_In _ _ N2) in Hin; discriminate.
Qed.

(** X7: the translation provider is never called unless translation is
    enabled and the resolved source differs from the output language; it is
    then given the text of the text box, the rewritten output language as
    target, and the selected source when that is not ["auto"]. *)
Theorem translation_only_when_needed languages w tld s src tgt t :
  In (Call_GoogleTranslator src tgt t)
     (trace_of (on_convert langdetect GoogleTranslator gTTS languages w tld) s) ->
  enable_translation w = true /\ t = text_input w /\
  tgt = provider_target (lang_code w) /\ src <> lang_code w /\
  (source_lang w <> "auto" -> src = source_lang w).
Proof.
  intros Hin.
  destruct (submission_cases w) as [H | [H | [H | [Hb Hv]]]].
  1-3: destruct (rejected_submission languages w tld s) as (tr & Y & N & _);
         [tauto|];
       destruct (yields_observed Y) as [_ Et]; rewrite Et in Hin;
       apply (no_calls_In _ _ N) in Hin; discriminate.
  destruct (on_convert_shape languages w tld s Hb Hv)
    as (txt & before & r & rest & Y1 & _ & _ & _ & _ & _ & N2 & Y).
  destruct (yields_observed Y) as [_ Et]. rewrite Et in Hin.
  apply in_app_or in Hin. destruct Hin as [Hin | [Heq | Hin]].
  - now apply (translation_step_calls w s txt before Y1).
  - discriminate.
  - apply (no_calls_In _ _ N2) in Hin; discriminate.
Qed.

(** X8: a successful translation is what gets spoken: the translated text
    is shown in the translation box and handed to the synthesizer, with the
    output language of the form. *)
Theorem translation_is_forwarded languages w tld s lang tr0 translated :
  convert_button w = true ->
  valid_text (text_input w) ->
  enable_translation w = true ->
  yields (resolve_source langdetect (text_input w) (source_lang w)) s
         (Returns lang) tr0 ->
  lang <> lang_code w ->
  GoogleTranslator lang (provider_target (lang_code w)) (text_input w)
  = Returns (Some translated) ->
  exists r rest,
    yields (on_convert langdetect GoogleTranslator gTTS languages w tld) s r
      (tr0 ++
       [Call_GoogleTranslator lang (provider_target (lang_code w))
                              (text_input w);
        St_success "Translation successful!";
        St_markdown (Md_text "**Translated Text:**");
        St_markdown (Md_translation_box (Some translated));
        Call_gTTS (Some translated) (lang_code w) (slow_speech w) tld]
       ++ rest) /\
    no_calls rest.
Proof.
  intros Hb [Hw Hl] Hen Y0 Hne E.
  pose proof (translate_text_other langdetect GoogleTranslator
                (text_input w) (source_lang w) Y0 Hne) as T.
  simpl in T. rewrite E in T.
  pose proof (translation_step_enabled w Hen T) as Y1. simpl in Y1.
  destruct (synthesis_step_shape languages w tld (Some translated)
              (extend s ((tr0 ++
                 [Call_GoogleTranslator lang (provider_target (lang_code w))
                                        (text_input w)]) ++
                 [St_success "Translation successful!";
                  St_markdown (Md_text "**Translated Text:**");
                  St_markdown (Md_translation_box (Some translated))])))
    as (r & rest & Y2 & N2).
  exists r, rest; split; [|exact N2].
  match goal with
  | |- yields _ _ _ ?t =>
      replace t with
        (((tr0 ++
           [Call_GoogleTranslator lang (provider_target (lang_code w))
                                  (text_input w)]) ++
          [St_success "Translation successful!";
           St_markdown (Md_text "**Translated Text:**");
           St_markdown (Md_translation_box (Some translated))]) ++
         Call_gTTS (Some translated) (lang_code w) (slow_speech w) tld :: rest)
        by (rewrite <- !app_assoc; reflexivity)
  end.
  unfold yields. rewrite on_convert_valid by assumption.
  exact (yields_bind _ Y1 Y2).
Qed.

(** X9: no unhandled exception in the handler: when the failures of the
    synthesizer carry a message and the synthesizer refuses a missing text
    (as [gTTS] does, which asserts that it is given one), the
    [if convert_button:] block always ends normally, whatever the form
    holds and whatever the detector and the translation provider return or
    raise. *)
Theorem handler_returns_normally languages w tld s :
  (forall t lang slow v, gTTS t lang slow v <> Raises "") ->
  (forall lang slow v audio, gTTS None lang slow v <> Returns audio) ->
  result_of (on_convert langdetect GoogleTranslator gTTS languages w tld) s
  = Returns tt.
Proof.
  intros Hs Hnone.
  destruct (submission_cases w) as [H | [H | [H | [Hb Hv]]]].
  1-3: destruct (rejected_submission languages w tld s) as (tr & Y & _);
         [tauto | now destruct (yields_observed Y)].
  destruct (on_convert_shape languages w tld s Hb Hv)
    as (txt & before & r & rest & _ & Y2 & _ & _ & _ & _ & _ & Y).
  destruct (yields_observed Y) as [-> _].
  pose proof (Hs txt (lang_code w) (slow_speech w) tld) as Hm.
  destruct (gTTS txt (lang_code w) (slow_speech w) tld) as [audio|e] eqn:E.
  - destruct txt as [final|].
    + pose proof (@synthesis_step_success gTTS languages w tld final audio
                    (extend s before) E) as Y3.
      now destruct (yields_deterministic Y2 Y3).
    + now elim (Hnone (lang_code w) (slow_speech w) tld audio).
  - assert (He : e <> "") by (intros ->; now elim Hm).
    pose proof (synthesis_step_failure languages w tld txt e
                  (extend s before) E He) as Y3.
    now destruct (yields_deterministic Y2 Y3).
Qed.

(** X10: an explicit source language is passed through: no detection is
    run, equal source and target return the text at once, and otherwise the
    provider is called once with that source and the rewritten target, its
    failure turned into the error of the result. *)
Theorem explicit_source_skips_detection text source target s :
  source <> "auto" ->
  (source = target ->
   yields (translate_text langdetect GoogleTranslator text source target) s
          (Returns (Some text, Some source, None)) []) /\
  (source <> target ->
   yields (translate_text langdetect GoogleTranslator text source target) s
          (Returns match GoogleTranslator source (provider_target target) text with
                   | Returns translated => (translated, Some source, None)
                   | Raises e => (None, None, Some e)
                   end)
          [Call_GoogleTranslator source (provider_target target) text]).
Proof.
  intros Hs.
  pose proof (resolve_source_explicit langdetect text s Hs) as Y. split.
  - intros <-. now apply translate_text_same.
  - intros Hne.
    exact (translate_text_other langdetect GoogleTranslator text source Y Hne).
Qed.

(** X18: after a successful synthesis of a text the handler returns
    normally, and what follows the call is, in this order: the success
    notice, the player, the three metrics and the download link, the player
    and the link carrying the very bytes the synthesizer returned, the link
    under the file name "audio.mp3"; nothing before the call is a player, a
    metric or a link. *)
Theorem successful_synthesis_is_shown languages w tld s final lang slow tld'
    audio :
  In (Call_gTTS (Some final) lang slow tld')
     (trace_of (on_convert langdetect GoogleTranslator gTTS languages w tld) s) ->
  gTTS (Some final) lang slow tld' = Returns audio ->
  result_of (on_convert langdetect GoogleTranslator gTTS languages w tld) s
  = Returns tt /\
  exists before,
    no_audio_output before /\
    trace_of (on_convert langdetect GoogleTranslator gTTS languages w tld) s
    = before ++
      [Call_gTTS (Some final) lang slow tld';
       St_success "Conversion successful!";
       St_audio (Some audio);
       St_metric "File Size"
         (Fixed "" (Z.of_nat (List.length audio) # 1024)%Q 2 " KB");
       St_metric "Output Language" (Plain (dict_get languages lang lang));
       St_metric "Approx Duration"
         (Fixed "~"
            (inject_Z (Z.of_nat (List.length (PyStr.split final))) * (1 # 2))%Q
            1 " sec");
       St_markdown (Md_download_link audio "audio.mp3")].
Proof.
  intros Hin E.
  destruct (synthesis_call_of_run languages w tld s (Some final) lang slow tld'
              Hin)
    as (-> & -> & -> & before & r & rest & Y2 & A1 & Y).
  pose proof (@synthesis_step_success gTTS languages w tld final audio
                (extend s before) E) as Y3.
  destruct (yields_deterministic Y2 Y3) as [-> Er]. injection Er as ->.
  destruct (yields_observed Y) as [-> ->].
  split; [reflexivity | now exists before].
Qed.

(** A valid submission with translation enabled, from the triple of
    [translate_text] on. *)
Lemma enabled_submission languages w tld s res tr :
  convert_button w = true ->
  valid_text (text_input w) ->
  enable_translation w = true ->
  yields (translate_text langdetect GoogleTranslator
            (text_input w) (source_lang w) (lang_code w)) s (Returns res) tr ->
  exists r rest,
    yields (on_convert langdetect GoogleTranslator gTTS languages w tld) s r
      ((tr ++ snd (translation_display w res)) ++
       Call_gTTS (fst (translation_display w res)) (lang_code w)
                 (slow_speech w) tld :: rest) /\
    no_calls rest.
Proof.
  intros Hb [Hw Hl] Hen T.
  pose proof (translation_step_enabled w Hen T) as Y1.
  destruct (synthesis_step_shape languages w tld
              (fst (translation_display w res))
              (extend s (tr ++ snd (translation_display w res))))
    as (r & rest & Y2 & N2).
  exists r, rest; split; [|exact N2].
  unfold yields. rewrite on_convert_valid by assumption.
  exact (yields_bind _ Y1 Y2).
Qed.

(** X19: a translation failure with a message does not stop the
    submission: the error and the fallback notice are shown, and the text of
    the text box is synthesized in the selected output language. *)
Theorem translation_failure_falls_back languages w tld s lang tr0 e :
  convert_button w = true ->
  valid_text (text_input w) ->
  enable_translation w = true ->
  yields (resolve_source langdetect (text_input w) (source_lang w)) s
         (Returns lang) tr0 ->
  lang <> lang_code w ->
  GoogleTranslator lang (provider_target (lang_code w)) (text_input w)
  = Raises e ->
  e <> "" ->
  exists r rest,
    yields (on_convert langdetect GoogleTranslator gTTS languages w tld) s r
      (tr0 ++
       [Call_GoogleTranslator lang (provider_target (lang_code w))
                              (text_input w);
        St_error ("Translation error: " ++ e);
        St_info "Converting original text to speech instead...";
        Call_gTTS (Some (text_input w)) (lang_code w) (slow_speech w) tld]
       ++ rest) /\
    no_calls rest.
Proof.
  intros Hb Hv Hen Y0 Hne E He.
  pose proof (translate_text_other langdetect GoogleTranslator
                (text_input w) (source_lang w) Y0 Hne) as T.
  simpl in T. rewrite E in T.
  destruct (enabled_submission languages w tld s _ _ Hb Hv Hen T)
    as (r & rest & Y & N).
  simpl in Y. apply String.eqb_neq in He. rewrite He in Y. simpl in Y.
  exists r, rest; split; [|exact N].
  rewrite <- !app_assoc in Y. exact Y.
Qed.

(** X20: when the resolved source is already the output language, nothing
    is sent to the provider, yet the page announces a successful
    translation: it shows the text of the text box in the translation box
    and synthesizes that text. *)
Theorem same_language_is_spoken_unchanged languages w tld s tr0 :
  convert_button w = true ->
  valid_text (text_input w) ->
  enable_translation w = true ->
  yields (resolve_source langdetect (text_input w) (source_lang w)) s
         (Returns (lang_code w)) tr0 ->
  exists r rest,
    yields (on_convert langdetect GoogleTranslator gTTS languages w tld) s r
      (tr0 ++
       [St_success "Translation successful!";
        St_markdown (Md_text "**Translated Text:**");
        St_markdown (Md_translation_box (Some (text_input w)));
        Call_gTTS (Some (text_input w)) (lang_code w) (slow_speech w) tld]
       ++ rest) /\
    no_calls rest /\
    forall src tgt t, ~ In (Call_GoogleTranslator src tgt t) tr0.
Proof.
  intros Hb Hv Hen Y0.
  pose proof (translate_text_same langdetect GoogleTranslator
                (text_input w) (source_lang w) Y0) as T.
  destruct (enabled_submission languages w tld s _ _ Hb Hv Hen T)
    as (r & rest & Y & N).
  simpl in Y.
  exists r, rest; split; [|split; [exact N|]].
  - rewrite <- !app_assoc in Y. exact Y.
  - destruct (resolve_source_total langdetect (text_input w) (source_lang w) s)
      as (lang' & tr' & Y' & Htr).
    destruct (yields_deterministic Y0 Y') as [_ ->].
    exact (detection_only Htr).
Qed.

End HandlerRuns.

(** ** The sidebar *)

Section Sidebar.

Local Open Scope list_scope.

Lemma dict_lookup_set_same d k v : dict_lookup (dict_set d k v) k = Some v.
Proof.
  induction d as [|[k' v'] d IH]; simpl.
  - now rewrite String.eqb_refl.
  - destruct (String.eqb_spec k' k) as [->|Hne]; simpl.
    + now rewrite String.eqb_refl.
    + apply String.eqb_neq in Hne. now rewrite Hne.
Qed.

Lemma dict_lookup_set_other d k v k' :
  k' <> k -> dict_lookup (dict_set d k v) k' = dict_lookup d k'.
Proof.
  intros Hne. induction d as [|[k0 v0] d IH]; simpl.
  - apply not_eq_sym, String.eqb_neq in Hne. now rewrite Hne.
  - destruct (String.eqb_spec k0 k) as [->|H0]; simpl.
    + apply not_eq_sym, String.eqb_neq in Hne. now rewrite Hne.
    + now rewrite IH.
Qed.

Lemma dict_set_fresh d k v :
  ~ In k (dict_keys d) -> dict_set d k v = d ++ [(k, v)].
Proof.
  induction d as [|[k' v'] d IH]; simpl; [reflexivity|].
  intros H. destruct (String.eqb_spec k' k) as [->|Hne].
  - elim H; now left.
  - rewrite IH; [reflexivity | tauto].
Qed.

(** Filling a dictionary with pairs whose keys are new and distinct appends
    them in order. *)
Lemma fold_set_fresh items d :
  NoDup (List.map fst items) ->
  (forall k, In k (List.map fst items) -> ~ In k (dict_keys d)) ->
  fold_left (fun d kv => dict_set d (fst kv) (snd kv)) items d = d ++ items.
Proof.
  revert d; induction items as [|[k v] items IH]; intros d Hnd Hfresh; simpl.
  - now rewrite app_nil_r.
  - inversion Hnd as [|? ? Hk Hnd']; subst.
    rewrite dict_set_fresh by (apply Hfresh; now left).
    rewrite IH; [now rewrite <- app_assoc | exact Hnd' |].
    intros k' Hk' Hin. unfold dict_keys in Hin.
    rewrite map_app in Hin. apply in_app_or in Hin.
    destruct Hin as [Hin | [<- | []]].
    + apply (Hfresh k'); [now right | exact Hin].
    + now apply Hk.
Qed.

Lemma dict_of_pairs_distinct items :
  NoDup (List.map fst items) -> dict_of_pairs items = items.
Proof.
  intros H. unfold dict_of_pairs. rewrite fold_set_fresh; auto.
Qed.

(** Whatever a comprehension maps a key to is one of the pairs it was
    built from. *)
Lemma fold_set_lookup items d k v :
  dict_lookup (fold_left (fun d kv => dict_set d (fst kv) (snd kv)) items d) k
  = Some v ->
  In (k, v) items \/ dict_lookup d k = Some v.
Proof.
  revert d; induction items as [|[k0 v0] items IH]; intros d; simpl; [auto|].
  intros H. apply IH in H. destruct H as [H | H]; [auto|].
  destruct (String.eqb_spec k k0) as [->|Hne].
  - rewrite dict_lookup_set_same in H. injection H as ->. auto.
  - rewrite dict_lookup_set_other in H by exact Hne. auto.
Qed.

Lemma dict_of_pairs_lookup items k v :
  dict_lookup (dict_of_pairs items) k = Some v -> In (k, v) items.
Proof.
  intros H. apply fold_set_lookup in H. destruct H as [H | H]; [exact H|].
  discriminate.
Qed.

Lemma dict_lookup_distinct d k v :
  NoDup (dict_keys d) -> In (k, v) d -> dict_lookup d k = Some v.
Proof.
  induction d as [|[k' v'] d IH]; simpl; [contradiction|].
  intros Hnd Hin. inversion Hnd as [|? ? Hk Hnd']; subst.
  destruct Hin as [E | Hin].
  - injection E as -> ->. now rewrite String.eqb_refl.
  - destruct (String.eqb_spec k' k) as [->|Hne]; [|now apply IH].
    elim Hk. change k with (fst (k, v)). now apply in_map.
Qed.

Lemma dict_get_in d k default :
  (exists v, In (k, v) d) -> In (k, dict_get d k default) d.
Proof.
  induction d as [|[k' v'] d IH]; simpl; intros [v Hin]; [contradiction|].
  destruct (String.eqb_spec k' k) as [->|Hne]; [now left|].
  right. apply IH. destruct Hin as [E | Hin]; [|eauto].
  injection E as -> _. now elim Hne.
Qed.

(** Sorting by name. *)
Lemma insert_by_name_perm x l : Permutation (insert_by_name x l) (x :: l).
Proof.
  induction l as [|y l IH]; simpl; [reflexivity|].
  destruct (snd x <=? snd y)%string; [reflexivity|].
  rewrite IH. apply perm_swap.
Qed.

Lemma sorted_by_name_perm items : Permutation (sorted_by_name items) items.
Proof.
  induction items as [|x items IH]; simpl; [reflexivity|].
  rewrite insert_by_name_perm. now apply perm_skip.
Qed.

Lemma insert_by_name_sorted x l :
  Sorted name_le l -> Sorted name_le (insert_by_name x l).
Proof.
  induction l as [|y l IH]; simpl; intros Hs.
  - repeat constructor.
  - destruct (snd x <=? snd y)%string eqn:E.
    + constructor; [exact Hs | constructor; exact E].
    + inversion Hs as [|? ? Hs' Hhd]; subst.
      constructor; [now apply IH|].
      assert (Hyx : name_le y x).
      { unfold name_le. destruct (String.leb_total (snd x) (snd y)); congruence. }
      destruct l as [|z l]; simpl.
      * constructor; exact Hyx.
      * destruct (snd x <=? snd z)%string.
        -- constructor; exact Hyx.
        -- inversion Hhd; subst. now constructor.
Qed.

Lemma sorted_by_name_sorted items : Sorted name_le (sorted_by_name items).
Proof.
  induction items as [|x items IH]; simpl; [constructor|].
  now apply insert_by_name_sorted.
Qed.

(** Labels. *)
Lemma has_char_app c a b : has_char c (a ++ b) = has_char c a || has_char c b.
Proof.
  induction a as [|x a IH]; simpl; [reflexivity|].
  now rewrite IH, orb_assoc.
Qed.

Lemma length_append a b :
  String.length (a ++ b) = String.length a + String.length b.
Proof. induction a as [|x a IH]; simpl; [reflexivity | now rewrite IH]. Qed.

Lemma append_tail_inj a b t : (a ++ t = b ++ t)%string -> a = b.
Proof.
  intros H.
  assert (L : String.length a = String.length b).
  { apply (f_equal String.length) in H.
    rewrite !length_append in H. lia. }
  revert b H L; induction a as [|x a IH]; intros [|y b] H L;
    simpl in *; try discriminate; [reflexivity|].
  injection H as -> H. f_equal. apply IH; [exact H | lia].
Qed.

Lemma option_label_inj x y :
  has_char "(" (fst x) = false ->
  has_char "(" (fst y) = false ->
  option_label x = option_label y ->
  x = y.
Proof.
  destruct x as [c1 n1], y as [c2 n2]; unfold option_label; simpl.
  intros H1 H2.
  assert (Hno : forall c n rest,
             has_char "(" c = false ->
             (c ++ ")")%string <> (n ++ String " " (String "(" rest))%string).
  { intros c n rest Hc E. apply (f_equal (has_char "(")) in E.
    rewrite !has_char_app in E. simpl in E. rewrite Hc in E.
    rewrite orb_true_r in E. discriminate. }
  revert n2; induction n1 as [|a n1 IH]; intros [|b n2] E; simpl in E.
  - injection E as E. apply append_tail_inj in E. now subst.
  - injection E as <- E. destruct n2 as [|b' n2]; simpl in E; [discriminate|].
    injection E as <- E. now apply Hno in E.
  - injection E as -> E. destruct n1 as [|a' n1]; simpl in E; [discriminate|].
    injection E as -> E. symmetry in E. now apply Hno in E.
  - injection E as -> E. apply IH in E. now injection E as -> ->.
Qed.

Lemma labels_distinct items :
  NoDup (List.map fst items) ->
  (forall item, In item items -> has_char "(" (fst item) = false) ->
  NoDup (List.map fst
           (List.map (fun item => (option_label item, fst item)) items)).
Proof.
  rewrite map_map; simpl.
  induction items as [|x items IH]; simpl; intros Hnd Hp; [constructor|].
  inversion Hnd as [|? ? Hx Hnd']; subst. constructor.
  - intros Hin. apply in_map_iff in Hin. destruct Hin as [y [E Hy]].
    apply option_label_inj in E; [| apply Hp; now right | apply Hp; now left].
    subst y. apply Hx. now apply in_map.
  - apply IH; [exact Hnd' | intros; apply Hp; now right].
Qed.

Lemma language_options_listing languages :
  NoDup (dict_keys languages) ->
  (forall item, In item languages -> has_char "(" (fst item) = false) ->
  language_options languages =
  List.map (fun item => (option_label item, fst item))
           (sorted_by_name languages).
Proof.
  intros Hnd Hp. unfold language_options.
  apply dict_of_pairs_distinct, labels_distinct.
  - apply (Permutation_NoDup
             (Permutation_sym
                (Permutation_map fst (sorted_by_name_perm languages)))).
    exact Hnd.
  - intros item Hin. apply Hp.
    now apply (Permutation_in _ (sorted_by_name_perm languages)).
Qed.

(** X11: the output-language box lists every language of the table once, in
    non-decreasing order of display name, under the label
    "name (code)": provided the codes are distinct, as the keys of a
    dictionary are, and hold no opening parenthesis. *)
Theorem language_options_in_name_order languages :
  NoDup (dict_keys languages) ->
  (forall item, In item languages -> has_char "(" (fst item) = false) ->
  exists listing,
    Permutation listing languages /\
    Sorted name_le listing /\
    language_options languages =
    List.map (fun item => (option_label item, fst item)) listing.
Proof.
  intros Hnd Hp. exists (sorted_by_name languages).
  split; [apply sorted_by_name_perm|].
  split; [apply sorted_by_name_sorted|].
  now apply language_options_listing.
Qed.

(** X12: choosing the label of a language selects that language: under the
    same conditions, [language_options] maps the label built from a code
    and its name back to the code. *)
Theorem selected_label_gives_code languages code name :
  NoDup (dict_keys languages) ->
  (forall item, In item languages -> has_char "(" (fst item) = false) ->
  In (code, name) languages ->
  dict_lookup (language_options languages) (option_label (code, name))
  = Some code.
Proof.
  intros Hnd Hp Hin.
  rewrite (language_options_listing languages Hnd Hp).
  apply dict_lookup_distinct.
  - apply labels_distinct.
    + apply (Permutation_NoDup
               (Permutation_sym
                  (Permutation_map fst (sorted_by_name_perm languages)))).
      exact Hnd.
    + intros item Hi. apply Hp.
      now apply (Permutation_in _ (sorted_by_name_perm languages)).
  - apply (in_map (fun item => (option_label item, fst item)) _ (code, name)).
    now apply (Permutation_in _ (Permutation_sym (sorted_by_name_perm languages))).
Qed.

(** X13: whatever option is selected, the code it gives is a code of the
    language table, so that [languages.get(lang_code, lang_code)] finds a
    name for it and the "Output Language" metric never falls back to the
    bare code. *)
Theorem selected_code_is_supported languages selected_lang code :
  dict_lookup (language_options languages) selected_lang = Some code ->
  (exists name, In (code, name) languages) /\
  In (code, dict_get languages code code) languages.
Proof.
  intros H. apply dict_of_pairs_lookup in H.
  apply in_map_iff in H. destruct H as [[c n] [E Hin]].
  injection E as _ ->.
  apply (Permutation_in _ (sorted_by_name_perm languages)) in Hin.
  split; [now exists n|]. apply dict_get_in. now exists n.
Qed.

(** The names of a table, when distinct, lead back to the codes. *)
Lemma names_to_codes_lookup table code name :
  NoDup (List.map snd table) ->
  In (code, name) table ->
  dict_lookup (names_to_codes table) name = Some code.
Proof.
  intros Hnd Hin. unfold names_to_codes.
  assert (Hk : NoDup (List.map fst
                        (List.map (fun item : string * string =>
                                     (snd item, fst item)) table))).
  { rewrite map_map; simpl. exact Hnd. }
  rewrite (dict_of_pairs_distinct _ Hk).
  apply dict_lookup_distinct; [exact Hk|].
  apply (in_map (fun item : string * string => (snd item, fst item))
                _ (code, name)), Hin.
Qed.

Lemma distinct_NoDup l : distinct l = true -> NoDup l.
Proof.
  induction l as [|x l IH]; simpl; [constructor|].
  intros H. apply andb_true_iff in H. destruct H as [Hx Hl].
  constructor; [|now apply IH].
  intros Hin. apply negb_true_iff in Hx.
  assert (E : existsb (String.eqb x) l = true).
  { apply existsb_exists. exists x; split; [exact Hin | apply String.eqb_refl]. }
  congruence.
Qed.

(** X14: every entry of [TRANSLATION_LANGUAGES] can be chosen as source:
    no two of its display names coincide, so the name of each entry leads
    back to its code; every code the box can give is a code of the table;
    and the box starts on "Auto-detect", that is on ["auto"]. *)
Theorem source_options_cover_table :
  (forall code name,
      In (code, name) TRANSLATION_LANGUAGES ->
      dict_lookup source_lang_options name = Some code) /\
  (forall selected_source code,
      dict_lookup source_lang_options selected_source = Some code ->
      In (code, selected_source) TRANSLATION_LANGUAGES) /\
  (exists selected_source,
      first_option source_lang_options = Some selected_source /\
      dict_lookup source_lang_options selected_source = Some "auto").
Proof.
  split; [|split].
  - intros code name Hin. apply names_to_codes_lookup; [|exact Hin].
    apply distinct_NoDup. vm_compute. reflexivity.
  - intros selected_source code H.
    apply dict_of_pairs_lookup, in_map_iff in H.
    destruct H as [[c n] [E Hin]]. simpl in E. now injection E as -> ->.
  - exists "Auto-detect". split; vm_compute; reflexivity.
Qed.

End Sidebar.

(** ** The banner and the download link *)

Section BannerAndLink.

Local Open Scope list_scope.

Lemma of_string_app a b :
  PyStr.of_string (a ++ b) = PyStr.of_string a ++ PyStr.of_string b.
Proof.
  unfold PyStr.of_string. induction a as [|x a IH]; simpl; [reflexivity|].
  now rewrite IH.
Qed.

Lemma has_char_of_string c s :
  has_char c s = false -> ~ In (N_of_ascii c) (PyStr.of_string s).
Proof.
  unfold PyStr.of_string. induction s as [|x s IH]; simpl; [tauto|].
  intros H. apply orb_false_iff in H. destruct H as [Hx Hs].
  intros [E | Hin]; [|now apply IH].
  apply (f_equal ascii_of_N) in E. rewrite !ascii_N_embedding in E.
  subst x. now rewrite Ascii.eqb_refl in Hx.
Qed.

Lemma before_first_absent sep a b :
  ~ In sep a -> before_first sep (a ++ sep :: b) = a.
Proof.
  induction a as [|x a IH]; simpl; intros H.
  - now rewrite N.eqb_refl.
  - destruct (N.eqb_spec x sep) as [->|Hne]; [tauto|].
    rewrite IH; [reflexivity | tauto].
Qed.

Lemma before_first_present sep a b :
  In sep a -> before_first sep (a ++ b) = before_first sep a.
Proof.
  induction a as [|x a IH]; simpl; [contradiction|].
  intros H. destruct (N.eqb_spec x sep) as [->|Hne]; [reflexivity|].
  rewrite IH; [reflexivity|]. destruct H; [contradiction | assumption].
Qed.

Lemma before_first_whole sep a : ~ In sep a -> before_first sep a = a.
Proof.
  induction a as [|x a IH]; simpl; intros H; [reflexivity|].
  destruct (N.eqb_spec x sep) as [->|Hne]; [tauto|].
  rewrite IH; [reflexivity | tauto].
Qed.

Lemma lstrip_app a b :
  PyStr.lstrip (a ++ b) =
  if forallb PyStr.isspace a then PyStr.lstrip b else PyStr.lstrip a ++ b.
Proof.
  induction a as [|x a IH]; simpl; [reflexivity|].
  destruct (PyStr.isspace x); simpl; [exact IH | reflexivity].
Qed.

Lemma lstrip_blank_all a :
  forallb PyStr.isspace a = true -> PyStr.lstrip a = [].
Proof.
  induction a as [|x a IH]; simpl; [reflexivity|].
  destruct (PyStr.isspace x); simpl; [exact IH | discriminate].
Qed.

(** A trailing space does not survive [strip]. *)
Lemma strip_trailing_space a : PyStr.strip (a ++ [32%N]) = PyStr.strip a.
Proof.
  unfold PyStr.strip. rewrite lstrip_app.
  destruct (forallb PyStr.isspace a) eqn:E.
  - rewrite (lstrip_blank_all a E). reflexivity.
  - unfold PyStr.rstrip. rewrite rev_app_distr. reflexivity.
Qed.

(** X15: the banner names the output language by its display name up to the
    first opening parenthesis, stripped: the code of the label never shows,
    a name without parenthesis shows whole, and a name such as
    "Chinese (Simplified)" shows as "Chinese". *)
Theorem banner_shows_name_before_parenthesis code name :
  banner_target (PyStr.of_string (option_label (code, name))) =
  PyStr.strip (before_first 40 (PyStr.of_string name)) /\
  (has_char "(" name = false ->
   banner_target (PyStr.of_string (option_label (code, name))) =
   PyStr.strip (PyStr.of_string name)).
Proof.
  assert (L : PyStr.of_string (option_label (code, name)) =
              (PyStr.of_string name ++ [32%N]) ++
              40%N :: PyStr.of_string (code ++ ")")).
  { unfold option_label; simpl. rewrite of_string_app.
    rewrite <- app_assoc. reflexivity. }
  assert (W : has_char "(" name = false ->
              banner_target (PyStr.of_string (option_label (code, name))) =
              PyStr.strip (PyStr.of_string name)).
  { intros H. unfold banner_target. rewrite L.
    rewrite before_first_absent.
    - apply strip_trailing_space.
    - intros Hin. apply in_app_or in Hin. destruct Hin as [Hin | [F | []]].
      + now apply (has_char_of_string "(" name H).
      + discriminate. }
  split; [|exact W].
  destruct (has_char "(" name) eqn:H.
  - unfold banner_target. rewrite L, <- app_assoc.
    rewrite before_first_present; [reflexivity|].
    clear L W. unfold PyStr.of_string.
    induction name as [|x name IH]; simpl in *; [discriminate|].
    apply orb_true_iff in H. destruct H as [Hx | Hn]; [left | right; auto].
    apply Ascii.eqb_eq in Hx. now subst x.
  - rewrite (W eq_refl). f_equal. symmetry. apply before_first_whole.
    now apply (has_char_of_string "(" name).
Qed.

(** The sixty-four characters of the alphabet. *)
Lemma sextet_listed n : (n < 64)%N -> In n (List.map N.of_nat (seq 0 64)).
Proof.
  intros H. rewrite <- (N2Nat.id n). apply in_map, in_seq. lia.
Qed.

Lemma b64_index_char n : (n < 64)%N -> b64_index (b64_char n) = Some n.
Proof.
  intros H. apply sextet_listed in H. revert n H. apply Forall_forall.
  apply Forall_forall. intros n Hn.
  assert (C : forallb (fun n => match b64_index (b64_char n) with
                                | Some m => N.eqb m n
                                | None => false
                                end) (List.map N.of_nat (seq 0 64)) = true)
    by (vm_compute; reflexivity).
  rewrite forallb_forall in C. specialize (C n Hn).
  destruct (b64_index (b64_char n)); [|discriminate].
  apply N.eqb_eq in C. now subst.
Qed.

Lemma b64_char_not_pad n : (n < 64)%N -> Ascii.eqb (b64_char n) "=" = false.
Proof.
  intros H. apply sextet_listed in H.
  assert (C : forallb (fun n => negb (Ascii.eqb (b64_char n) "="))
                      (List.map N.of_nat (seq 0 64)) = true)
    by (vm_compute; reflexivity).
  rewrite forallb_forall in C. now apply negb_true_iff, C.
Qed.

Lemma b64_char_listed n : is_b64_char (b64_char n) = true.
Proof.
  unfold is_b64_char. destruct (N.ltb_spec n 64) as [H|H].
  - now rewrite (b64_index_char n H).
  - unfold b64_char.
    assert (G : String.get (N.to_nat n) b64_alphabet = None).
    { assert (L : 64 <= N.to_nat n) by lia.
      generalize (N.to_nat n) L. intros k Hk.
      do 64 (destruct k as [|k]; [lia|]). reflexivity. }
    rewrite G. reflexivity.
Qed.

(** Lists, three elements at a time. *)
Lemma list_ind3 (A : Type) (P : list A -> Prop) :
  P [] -> (forall a, P [a]) -> (forall a b, P [a; b]) ->
  (forall a b c l, P l -> P (a :: b :: c :: l)) ->
  forall l, P l.
Proof.
  intros H0 H1 H2 H3.
  assert (G : forall l, P l /\ (forall a, P (a :: l)) /\
                        (forall a b, P (a :: b :: l))).
  { induction l as [|x l (IH0 & IH1 & IH2)]; [auto|].
    split; [apply IH1 | split; [intros a; apply IH2 | intros a b; now apply H3]]. }
  intros l; apply G.
Qed.

Lemma byte_sextets x y z :
  (x <= 255 -> y <= 255 -> z <= 255 ->
   x / 4 < 64 /\ x mod 4 * 16 + y / 16 < 64 /\
   y mod 16 * 4 + z / 64 < 64 /\ z mod 64 < 64 /\
   x / 4 * 4 + (x mod 4 * 16 + y / 16) / 16 = x /\
   (x mod 4 * 16 + y / 16) mod 16 * 16 + (y mod 16 * 4 + z / 64) / 4 = y /\
   (y mod 16 * 4 + z / 64) mod 4 * 64 + z mod 64 = z)%N.
Proof.
  intros Hx Hy Hz.
  repeat split; zify; Z.to_euclidean_division_equations; lia.
Qed.

Lemma b64decode_encode data : b64decode (b64encode data) = Some data.
Proof.
  induction data as [|a|a b|a b c rest IH] using list_ind3.
  - reflexivity.
  - pose proof (Byte.to_N_bounded a) as Ha.
    destruct (byte_sextets (Byte.to_N a) 0 0 Ha) as (S1 & S2 & _ & _ & E1 & _);
      [lia | lia |].
    cbn [b64encode b64decode].
    rewrite N.add_0_r in S2, E1. change (0 / 16)%N with 0%N in *.
    rewrite (b64_index_char _ S1), (b64_index_char _ S2).
    cbn [Ascii.eqb Bool.eqb andb String.eqb bytes_of fold_right].
    rewrite E1, Byte.of_to_N. reflexivity.
  - pose proof (Byte.to_N_bounded a) as Ha.
    pose proof (Byte.to_N_bounded b) as Hb.
    destruct (byte_sextets (Byte.to_N a) (Byte.to_N b) 0 Ha Hb)
      as (S1 & S2 & S3 & _ & E1 & E2 & _); [lia|].
    cbn [b64encode b64decode].
    change (0 / 64)%N with 0%N in *. rewrite N.add_0_r in S3, E2.
    rewrite (b64_index_char _ S1), (b64_index_char _ S2),
      (b64_char_not_pad _ S3), (b64_index_char _ S3).
    cbn [Ascii.eqb Bool.eqb andb String.eqb bytes_of fold_right].
    rewrite E1, E2, !Byte.of_to_N. reflexivity.
  - pose proof (Byte.to_N_bounded a) as Ha.
    pose proof (Byte.to_N_bounded b) as Hb.
    pose proof (Byte.to_N_bounded c) as Hc.
    destruct (byte_sextets (Byte.to_N a) (Byte.to_N b) (Byte.to_N c) Ha Hb Hc)
      as (S1 & S2 & S3 & S4 & E1 & E2 & E3).
    cbn [b64encode b64decode].
    rewrite (b64_index_char _ S1), (b64_index_char _ S2),
      (b64_char_not_pad _ S3), (b64_index_char _ S3),
      (b64_char_not_pad _ S4), (b64_index_char _ S4), IH.
    cbn [bytes_of fold_right].
    rewrite E1, E2, E3, !Byte.of_to_N. reflexivity.
Qed.

Lemma append_head_inj (p a b : string) : (p ++ a = p ++ b)%string -> a = b.
Proof.
  induction p as [|x p IH]; simpl; [auto|].
  intros H. injection H as H. now apply IH.
Qed.

(** X16: the download link loses nothing of the audio: the payload of the
    data URI decodes back to the bytes given, so that two links for the
    same file name are equal only when the audio is the same. *)
Theorem download_link_is_lossless :
  (forall audio_bytes, b64decode (b64encode audio_bytes) = Some audio_bytes) /\
  (forall audio1 audio2 filename,
      get_audio_download_link audio1 filename =
      get_audio_download_link audio2 filename ->
      audio1 = audio2).
Proof.
  split; [exact b64decode_encode|].
  intros audio1 audio2 filename H. unfold get_audio_download_link in H.
  apply append_head_inj, append_head_inj, append_head_inj in H.
  apply append_tail_inj in H.
  apply (f_equal b64decode) in H. rewrite !b64decode_encode in H.
  now injection H.
Qed.

Lemma string_forall_has_char p c s :
  string_forall p s = true -> p c = false -> has_char c s = false.
Proof.
  intros Hs Hc. induction s as [|x s IH]; simpl in *; [reflexivity|].
  apply andb_true_iff in Hs. destruct Hs as [Hx Hs].
  rewrite (IH Hs), orb_false_r.
  destruct (Ascii.eqb_spec x c) as [->|]; [congruence | reflexivity].
Qed.

(** X17: the payload of the link is made of the sixty-four characters of
    the alphabet and of [=] only, four for every three bytes started; in
    particular it holds no double quote, so that it cannot end the [href]
    attribute it is written in. *)
Theorem download_payload_shape audio_bytes :
  string_forall is_b64_char (b64encode audio_bytes) = true /\
  String.length (b64encode audio_bytes) =
  4 * ((List.length audio_bytes + 2) / 3) /\
  has_char (ascii_of_N 34) (b64encode audio_bytes) = false.
Proof.
  assert (A : string_forall is_b64_char (b64encode audio_bytes) = true).
  { induction audio_bytes as [|a|a b|a b c rest IH] using list_ind3;
      cbn [b64encode string_forall]; rewrite ?b64_char_listed, ?IH;
      reflexivity. }
  split; [exact A | split].
  - clear A.
    induction audio_bytes as [|a|a b|a b c rest IH] using list_ind3;
      try reflexivity.
    cbn [b64encode String.length List.length]. rewrite IH.
    replace (S (S (S (List.length rest))) + 2)
      with (1 * 3 + (List.length rest + 2)) by lia.
    rewrite Nat.div_add_l by discriminate. lia.
  - apply (string_forall_has_char is_b64_char _ _ A). reflexivity.
Qed.

End BannerAndLink.

(** ** The properties on the sample runs *)

Section SampleRuns.

Import Sample.
Local Open Scope list_scope.

Lemma validation_stops_submission_witness :
  let w := form false "auto" "en" long_text in
  exists msg,
    yields (on_convert langdetect translator synthesizer [] w "com") start
           (Returns tt) [St_error msg] /\
    (msg = "Please enter some text to convert!" \/
     msg = "Text is too long. Please reduce to 5000 characters or less.") /\
    forallb (fun e => negb (is_provider_call e)) [St_error msg] = true.
Proof.
  intros w.
  apply (validation_stops_submission langdetect translator synthesizer
           [] w "com" start).
  - reflexivity.
  - right; right. vm_compute. reflexivity.
Defined.

Lemma empty_check_comes_first_witness :
  let w := form true "auto" "en" blank_text in
  yields (on_convert langdetect translator synthesizer [] w "com") start
         (Returns tt) [St_error "Please enter some text to convert!"] /\
  ~ In (St_error "Text is too long. Please reduce to 5000 characters or less.")
       (trace_of (on_convert langdetect translator synthesizer [] w "com") start).
Proof.
  intros w.
  apply (empty_check_comes_first langdetect translator synthesizer
           [] w "com" start).
  - reflexivity.
  - apply PyStrFacts.whitespace_only_forallb. vm_compute. reflexivity.
  - vm_compute. reflexivity.
Defined.

Lemma same_language_short_circuit_witness :
  yields (translate_text langdetect translator bonjour "auto" "fr") seeded
         (Returns (Some bonjour, Some "fr", None)) [Call_detect bonjour] /\
  forall src tgt txt,
    ~ In (Call_GoogleTranslator src tgt txt) [Call_detect bonjour].
Proof.
  apply (same_language_short_circuit langdetect translator
           bonjour "auto" "fr" seeded [Call_detect bonjour]).
  vm_compute. reflexivity.
Defined.

Lemma provider_gets_rewritten_target_witness :
  (exists res,
     yields (translate_text langdetect translator bonjour "fr" "zh-cn") start
            (Returns res)
            ([] ++ [Call_GoogleTranslator "fr" (provider_target "zh-cn") bonjour])
     /\ forall src tgt txt, ~ In (Call_GoogleTranslator src tgt txt) []) /\
  provider_target "zh-cn" = "zh-CN" /\
  provider_target "zh-tw" = "zh-TW" /\
  ("zh-cn" <> "zh-cn" -> "zh-cn" <> "zh-tw" -> provider_target "zh-cn" = "zh-cn").
Proof.
  apply (provider_gets_rewritten_target langdetect translator
           bonjour "fr" "zh-cn" start "fr" []).
  - vm_compute. reflexivity.
  - discriminate.
Defined.

Lemma auto_source_is_resolved_witness :
  yields (resolve_source langdetect bonjour "auto") seeded (Returns "fr")
         [Call_detect bonjour] /\
  yields (resolve_source langdetect hello_world "auto") seeded (Returns "en")
         [Call_detect hello_world] /\
  "fr" <> "auto".
Proof.
  split; [|split].
  - apply (proj1 (auto_source_is_resolved langdetect translator bonjour seeded)).
    + vm_compute. reflexivity.
    + discriminate.
  - apply (proj1 (proj2 (auto_source_is_resolved langdetect translator
                           hello_world seeded))).
    intros code H. vm_compute in H. discriminate.
  - refine (proj1 (proj2 (proj2 (auto_source_is_resolved langdetect translator
                                   bonjour seeded))
                     _ "auto" "en" (Some (PyStr.of_string "Hello")) "fr"
                     [Call_detect bonjour;
                      Call_GoogleTranslator "fr" "en" bonjour] _)).
    + vm_compute. discriminate.
    + vm_compute. reflexivity.
Defined.

Lemma accent_only_for_english_witness :
  let w := form false "auto" "fr" hello_world in
  selected_accent w = UK_English /\
  "fr" = lang_code w /\
  (lang_code w <> "en" -> "com" = "com") /\
  ("com" <> "com" -> "fr" = "en").
Proof.
  intros w. split; [reflexivity|].
  apply (accent_only_for_english langdetect translator synthesizer
           (Raises "offline") w start (Some hello_world) "fr" false "com").
  vm_compute. right; left. reflexivity.
Defined.

Lemma metrics_are_exact_witness :
  let w := form false "auto" "en" hello_world in
  let run := trace_of (on_convert langdetect translator synthesizer [] w "com")
                      start in
  exists kb seconds,
    (forall s',
        result_of (convert_text_to_speech synthesizer (Some hello_world)
                     "en" false "com") s'
        = Returns (Some (List.flat_map
                           (fun _ => [Byte.xff; Byte.xf3; Byte.x44])
                           hello_world),
                   Some kb, None)) /\
    In (St_metric "File Size" (Fixed "" kb 2 " KB")) run /\
    In (St_metric "Approx Duration" (Fixed "~" seconds 1 " sec")) run /\
    (kb == inject_Z 33 / inject_Z 1024)%Q /\
    (seconds == (1 # 2) * inject_Z 2)%Q.
Proof.
  intros w run.
  apply (metrics_are_exact langdetect translator synthesizer [] w "com" start
           hello_world "en" false "com"
           (List.flat_map (fun _ => [Byte.xff; Byte.xf3; Byte.x44])
                          hello_world)).
  - vm_compute. left. reflexivity.
  - reflexivity.
Defined.

(** Without the seed, the same text can be detected differently from one
    run to the next. *)
Lemma unseeded_detection_varies :
  result_of (detect_language langdetect bonjour) (mkState None 7 []) <>
  result_of (detect_language langdetect bonjour) (mkState None 8 []).
Proof. vm_compute. discriminate. Qed.

(** C1 (the case the handler misses): the provider fails with an exception
    whose message is empty.  [translate_text] reports the failure, but the
    handler reads the empty message as "no error": it announces a
    successful translation, shows no translation error, and calls the
    synthesizer with [None] where the text of the text box was due. *)
Theorem translation_error_without_message :
  let w := form true "fr" "en" bonjour in
  result_of (translate_text langdetect silent_translator
               (text_input w) (source_lang w) (lang_code w)) start
  = Returns (None, None, Some "") /\
  trace_of (on_convert langdetect silent_translator synthesizer [] w "com")
           start
  = [Call_GoogleTranslator "fr" "en" bonjour;
     St_success "Translation successful!";
     St_markdown (Md_text "**Translated Text:**");
     St_markdown (Md_translation_box None);
     Call_gTTS None "en" false "com";
     St_error "Error: No text to speak";
     St_info "Tip: Make sure you have an internet connection. gTTS requires internet to work."].
Proof. split; vm_compute; reflexivity. Qed.

(** The same submission when the provider fails with a message. *)
Example translation_error_with_message :
  let w := form true "fr" "en" bonjour in
  firstn 4 (trace_of (on_convert langdetect offline_translator synthesizer
                        [] w "com") start)
  = [Call_GoogleTranslator "fr" "en" bonjour;
     St_error "Translation error: Request exception can happen due to an api connection error.";
     St_info "Converting original text to speech instead...";
     Call_gTTS (Some bonjour) "en" false "com"].
Proof. vm_compute. reflexivity. Qed.

End SampleRuns.

(** ** Further sample runs *)

Section MoreSampleRuns.

Import Sample MoreSamples.
Local Open Scope list_scope.

Lemma full_text_valid : valid_text full_text.
Proof.
  split.
  - intros H. apply PyStrFacts.strip_nil_iff in H. vm_compute in H.
    discriminate.
  - vm_compute. discriminate.
Defined.

Lemma hello_world_valid : valid_text hello_world.
Proof.
  split.
  - intros H. apply PyStrFacts.strip_nil_iff in H. vm_compute in H.
    discriminate.
  - vm_compute. discriminate.
Defined.

Lemma bonjour_valid : valid_text bonjour.
Proof.
  split.
  - intros H. apply PyStrFacts.strip_nil_iff in H. vm_compute in H.
    discriminate.
  - vm_compute. discriminate.
Defined.

Lemma valid_submission_reaches_synthesis_witness :
  let w := form false "auto" "en" full_text in
  let run := trace_of (on_convert langdetect translator synthesizer [] w "com")
                      start in
  count is_synthesis run = 1 /\
  exists txt before rest,
    run = before ++ Call_gTTS txt (lang_code w) (slow_speech w) "com" :: rest /\
    no_synthesis before /\ no_calls rest.
Proof.
  intros w.
  apply (valid_submission_reaches_synthesis langdetect translator synthesizer
           [] w "com" start).
  - reflexivity.
  - exact full_text_valid.
Defined.

Lemma disabled_translation_is_verbatim_witness :
  let w := form false "auto" "fr" hello_world in
  exists r rest,
    yields (on_convert langdetect translator synthesizer [] w "com") start r
           (Call_gTTS (Some (text_input w)) (lang_code w) (slow_speech w) "com"
            :: rest) /\
    no_calls rest.
Proof.
  intros w.
  apply (disabled_translation_is_verbatim langdetect translator synthesizer
           [] w "com" start).
  - reflexivity.
  - exact hello_world_valid.
  - reflexivity.
Defined.

Lemma synthesis_failure_is_reported_witness :
  let w := form false "auto" "en" hello_world in
  let run := on_convert langdetect translator offline_synthesizer [] w "com" in
  result_of run start = Returns tt /\
  (exists before,
     trace_of run start
     = before ++
       [Call_gTTS (Some hello_world) "en" false "com";
        St_error ("Error: " ++ "Failed to connect. Probable cause: Unknown");
        St_info "Tip: Make sure you have an internet connection. gTTS requires internet to work."]) /\
  no_audio_output (trace_of run start).
Proof.
  intros w run.
  apply (synthesis_failure_is_reported langdetect translator
           offline_synthesizer [] w "com" start (Some hello_world) "en" false
           "com" "Failed to connect. Probable cause: Unknown").
  - vm_compute. left. reflexivity.
  - reflexivity.
  - discriminate.
Defined.

Lemma synthesis_failure_without_message_witness :
  let w := form false "auto" "en" hello_world in
  let run := on_convert langdetect translator silent_synthesizer [] w "com" in
  (exists msg, result_of run start = Raises msg) /\
  exists before rest,
    trace_of run start
    = before ++
      Call_gTTS (Some hello_world) "en" false "com"
      :: St_success "Conversion successful!" :: rest /\
    forall msg, ~ In (St_error msg) rest.
Proof.
  intros w run.
  apply (synthesis_failure_without_message langdetect translator
           silent_synthesizer [] w "com" start (Some hello_world) "en" false
           "com").
  - vm_compute. left. reflexivity.
  - reflexivity.
Defined.

Lemma detection_only_for_auto_witness :
  let w := form true "auto" "en" bonjour in
  enable_translation w = true /\ source_lang w = "auto" /\
  bonjour = text_input w.
Proof.
  intros w.
  apply (detection_only_for_auto langdetect translator synthesizer [] w "com"
           seeded bonjour).
  vm_compute. left. reflexivity.
Defined.

Lemma translation_only_when_needed_witness :
  let w := form true "fr" "en" bonjour in
  enable_translation w = true /\ bonjour = text_input w /\
  "en" = provider_target (lang_code w) /\ "fr" <> lang_code w /\
  (source_lang w <> "auto" -> "fr" = source_lang w).
Proof.
  intros w.
  apply (translation_only_when_needed langdetect translator synthesizer []
           w "com" start "fr" "en" bonjour).
  vm_compute. left. reflexivity.
Defined.

Lemma translation_is_forwarded_witness :
  let w := form true "fr" "en" bonjour in
  exists r rest,
    yields (on_convert langdetect translator synthesizer [] w "com") start r
      ([] ++
       [Call_GoogleTranslator "fr" (provider_target (lang_code w))
                              (text_input w);
        St_success "Translation successful!";
        St_markdown (Md_text "**Translated Text:**");
        St_markdown (Md_translation_box (Some (PyStr.of_string "Hello")));
        Call_gTTS (Some (PyStr.of_string "Hello")) (lang_code w)
                  (slow_speech w) "com"]
       ++ rest) /\
    no_calls rest.
Proof.
  intros w.
  apply (translation_is_forwarded langdetect translator synthesizer [] w
           "com" start "fr" [] (PyStr.of_string "Hello")).
  - reflexivity.
  - exact bonjour_valid.
  - reflexivity.
  - vm_compute. reflexivity.
  - discriminate.
  - reflexivity.
Defined.

Lemma handler_returns_normally_witness :
  result_of (on_convert langdetect empty_translator synthesizer []
               (form true "fr" "en" bonjour) "com") start
  = Returns tt.
Proof.
  apply (handler_returns_normally langdetect empty_translator synthesizer []
           (form true "fr" "en" bonjour) "com" start).
  - intros [t|] lang slow v; discriminate.
  - intros lang slow v audio; discriminate.
Defined.

Lemma explicit_source_skips_detection_witness :
  ("fr" = "en" ->
   yields (translate_text langdetect translator bonjour "fr" "en") start
          (Returns (Some bonjour, Some "fr", None)) []) /\
  ("fr" <> "en" ->
   yields (translate_text langdetect translator bonjour "fr" "en") start
          (Returns match translator "fr" (provider_target "en") bonjour with
                   | Returns translated => (translated, Some "fr", None)
                   | Raises e => (None, None, Some e)
                   end)
          [Call_GoogleTranslator "fr" (provider_target "en") bonjour]).
Proof.
  apply (explicit_source_skips_detection langdetect translator bonjour
           "fr" "en" start).
  discriminate.
Defined.

Lemma successful_synthesis_is_shown_witness :
  let w := form false "auto" "en" hello_world in
  let run := on_convert langdetect translator synthesizer fallback_languages
                        w "com" in
  let audio := List.flat_map (fun _ => [Byte.xff; Byte.xf3; Byte.x44])
                             hello_world in
  result_of run start = Returns tt /\
  exists before,
    no_audio_output before /\
    trace_of run start
    = before ++
      [Call_gTTS (Some hello_world) "en" false "com";
       St_success "Conversion successful!";
       St_audio (Some audio);
       St_metric "File Size"
         (Fixed "" (Z.of_nat (List.length audio) # 1024)%Q 2 " KB");
       St_metric "Output Language"
         (Plain (dict_get fallback_languages "en" "en"));
       St_metric "Approx Duration"
         (Fixed "~"
            (inject_Z (Z.of_nat (List.length (PyStr.split hello_world)))
             * (1 # 2))%Q
            1 " sec");
       St_markdown (Md_download_link audio "audio.mp3")].
Proof.
  intros w run audio.
  apply (successful_synthesis_is_shown langdetect translator synthesizer
           fallback_languages w "com" start hello_world "en" false "com"
           audio).
  - vm_compute. left. reflexivity.
  - reflexivity.
Defined.

Lemma fallback_codes_distinct : NoDup (dict_keys fallback_languages).
Proof. apply distinct_NoDup. vm_compute. reflexivity. Defined.

Lemma fallback_codes_plain item :
  In item fallback_languages -> has_char "(" (fst item) = false.
Proof.
  revert item. apply Forall_forall. repeat constructor.
Defined.

Lemma language_options_in_name_order_witness :
  exists listing,
    Permutation listing fallback_languages /\
    Sorted name_le listing /\
    language_options fallback_languages =
    List.map (fun item => (option_label item, fst item)) listing.
Proof.
  apply (language_options_in_name_order fallback_languages).
  - exact fallback_codes_distinct.
  - exact fallback_codes_plain.
Defined.

Lemma selected_label_gives_code_witness :
  dict_lookup (language_options fallback_languages)
              (option_label ("zh-cn", "Chinese (Simplified)"))
  = Some "zh-cn".
Proof.
  apply (selected_label_gives_code fallback_languages
           "zh-cn" "Chinese (Simplified)").
  - exact fallback_codes_distinct.
  - exact fallback_codes_plain.
  - vm_compute. do 9 right. left. reflexivity.
Defined.

Lemma selected_code_is_supported_witness :
  (exists name, In ("fr", name) fallback_languages) /\
  In ("fr", dict_get fallback_languages "fr" "fr") fallback_languages.
Proof.
  apply (selected_code_is_supported fallback_languages "French (fr)" "fr").
  vm_compute. reflexivity.
Defined.

Lemma source_options_cover_table_witness :
  dict_lookup source_lang_options "Chinese (Traditional)" = Some "zh-tw" /\
  In ("auto", "Auto-detect") TRANSLATION_LANGUAGES.
Proof.
  split.
  - apply (proj1 source_options_cover_table "zh-tw" "Chinese (Traditional)").
    vm_compute. do 11 right. left. reflexivity.
  - apply (proj1 (proj2 source_options_cover_table) "Auto-detect" "auto").
    vm_compute. reflexivity.
Defined.

Lemma banner_shows_name_before_parenthesis_witness :
  banner_target (PyStr.of_string (option_label ("fr", "French"))) =
  PyStr.strip (PyStr.of_string "French").
Proof.
  apply (proj2 (banner_shows_name_before_parenthesis "fr" "French")).
  reflexivity.
Defined.

Lemma download_link_is_lossless_witness :
  [Byte.x4d; Byte.x61] = [Byte.x4d; Byte.x61].
Proof.
  apply (proj2 download_link_is_lossless
           [Byte.x4d; Byte.x61] [Byte.x4d; Byte.x61] "audio.mp3").
  reflexivity.
Defined.

(** The banner on a name that holds a parenthesis, and a link. *)
Example banner_cuts_at_parenthesis :
  banner_target
    (PyStr.of_string (option_label ("zh-cn", "Chinese (Simplified)")))
  = PyStr.of_string "Chinese".
Proof. vm_compute. reflexivity. Qed.

Example link_of_two_bytes :
  get_audio_download_link [Byte.x4d; Byte.x61] "audio.mp3" =
  ("<a href=" ++ dquote ++ "data:audio/mp3;base64,TWE=" ++ dquote
   ++ " download=" ++ dquote ++ "audio.mp3" ++ dquote
   ++ ">Download Audio File</a>")%string.
Proof. vm_compute. reflexivity. Qed.

Lemma translation_failure_falls_back_witness :
  let w := form true "fr" "en" bonjour in
  exists r rest,
    yields (on_convert langdetect offline_translator synthesizer [] w "com")
      start r
      ([] ++
       [Call_GoogleTranslator "fr" (provider_target (lang_code w))
                              (text_input w);
        St_error ("Translation error: " ++
                  "Request exception can happen due to an api connection error.");
        St_info "Converting original text to speech instead...";
        Call_gTTS (Some (text_input w)) (lang_code w) (slow_speech w) "com"]
       ++ rest) /\
    no_calls rest.
Proof.
  intros w.
  apply (translation_failure_falls_back langdetect offline_translator
           synthesizer [] w "com" start "fr" []
           "Request exception can happen due to an api connection error.").
  - reflexivity.
  - exact bonjour_valid.
  - reflexivity.
  - vm_compute. reflexivity.
  - discriminate.
  - reflexivity.
  - discriminate.
Defined.

Lemma same_language_is_spoken_unchanged_witness :
  let w := form true "auto" "fr" bonjour in
  exists r rest,
    yields (on_convert langdetect translator synthesizer [] w "com") seeded r
      ([Call_detect bonjour] ++
       [St_success "Translation successful!";
        St_markdown (Md_text "**Translated Text:**");
        St_markdown (Md_translation_box (Some (text_input w)));
        Call_gTTS (Some (text_input w)) (lang_code w) (slow_speech w) "com"]
       ++ rest) /\
    no_calls rest /\
    forall src tgt t, ~ In (Call_GoogleTranslator src tgt t) [Call_detect bonjour].
Proof.
  intros w.
  apply (same_language_is_spoken_unchanged langdetect translator synthesizer
           [] w "com" seeded [Call_detect bonjour]).
  - reflexivity.
  - exact bonjour_valid.
  - reflexivity.
  - vm_compute. reflexivity.
Defined.


End MoreSampleRuns.
